(** * The module manager of types/module.go

    A shallow embedding of [ModuleBasicManager] and [ModuleManager] and the
    properties of their lifecycle calls: genesis validation, genesis
    initialisation and export, the begin/end-block hooks, route registration
    and the four orderings.

    Conventions of the embedding.
    - A Go [map[string]T] is a [gmap string T]; indexing a map at a missing
      key yields the zero value of [T].
    - [json.RawMessage] is a byte slice that may be [nil]: [None] is the nil
      slice, [Some bs] a non-nil slice (possibly of length 0).
    - A slice that the code only measures with [len] and replaces as a whole
      ([[]abci.ValidatorUpdate], [[]string]) is a [list]; the nil slice and
      the empty slice both have length 0 and are both [[]].
    - Hooks that receive the [Context] act on the chain state behind it: they
      are state transformers.  Calls across an interface are recorded, with
      their arguments and what they returned, in a call log, so that "is
      invoked", "is never invoked" and "returned by" are statements about
      that log.
    - A method call on the nil interface value that a map lookup miss
      produces is a run-time panic. *)

From stdpp Require Import gmap strings list fin_maps.

(** ** Types declared outside module.go

    The file under study imports these and does not look inside them. *)
Class Env := {
  Ctx : Type;                 (* types.Context: the handle on the chain state *)
  ValidatorUpdate : Type;     (* abci.ValidatorUpdate *)
  RequestBeginBlock : Type;   (* abci.RequestBeginBlock *)
  RequestEndBlock : Type;     (* abci.RequestEndBlock *)
  Handler : Type;             (* types.Handler *)
  Querier : Type;             (* types.Querier *)
  error : Type;               (* a non-nil value of Go's error interface *)
}.

(** [json.RawMessage], a [[]byte]. *)
Definition RawMessage : Type := option (list Byte.byte).

(** [m[k]] on a [map[string]json.RawMessage]: the entry, or the zero value
    [nil] when [k] is absent. *)
Definition index (m : gmap string RawMessage) (k : string) : RawMessage :=
  match m !! k with
  | Some bz => bz
  | None => None
  end.

(** ** Event tags *)
Module Tags.

(** Modelled from the spec: a tag is a key/value pair ([cmn.KVPair], which
    module.go imports); keys and values are byte strings. *)
Record KVPair := { Key : string; Value : string }.

(** Modelled from the spec: the type [Tags] and its functions [EmptyTags],
    [AppendTags] and [ToKVPairs] live in types/tags.go, outside module.go.
    The spec describes the tag set as "an ordered,
    possibly-duplicate-containing sequence of key/value pairs" and the
    accumulator as "append-only, order-preserving". *)
Definition t : Type := list KVPair.

(** Modelled from the spec: [EmptyTags] is the empty sequence. *)
Definition EmptyTags : t := [].

(** Modelled from the spec: [AppendTags] of types/tags.go appends the
    argument's tags after the receiver's. *)
Definition AppendTags (tags more : t) : t := tags ++ more.

(** Modelled from the spec: [ToKVPairs] of types/tags.go is the conversion
    of the sequence to its underlying pair slice. *)
Definition ToKVPairs (tags : t) : list KVPair := tags.

End Tags.

(** ** The capability contracts *)

(** [AppModuleBasic].  The codec, REST and CLI registrations take part in no
    property below and are left out. *)
Module AppModuleBasic.
Section iface.
Context `{Env}.

Record t := {
  Name : string;
  DefaultGenesis : RawMessage;
  (* [None] is the nil error *)
  ValidateGenesis : RawMessage -> option error;
}.
End iface.
End AppModuleBasic.

(** [AppModule]: [AppModuleBasic] is embedded, the hooks that take the
    [Context] transform the state behind it. *)
Module AppModule.
Section iface.
Context `{Env}.

Record t := {
  Basic :> AppModuleBasic.t;
  Route : string;
  NewHandler : Handler;
  QuerierRoute : string;
  NewQuerierHandler : Querier;
  InitGenesis : Ctx -> RawMessage -> list ValidatorUpdate * Ctx;
  ExportGenesis : Ctx -> RawMessage * Ctx;
  BeginBlock : Ctx -> RequestBeginBlock -> Tags.t * Ctx;
  EndBlock : Ctx -> RequestEndBlock -> (list ValidatorUpdate * Tags.t) * Ctx;
}.

Definition Name (m : t) : string := AppModuleBasic.Name m.
End iface.
End AppModule.

(** ** Calls, panics and the call log *)

Inductive PanicValue := NilPointerDereference.

Inductive Outcome (A : Type) :=
| Ok (a : A)
| Panic (v : PanicValue).

Arguments Ok {A} a.
Arguments Panic {A} v.

Section effects.
Context `{Env}.

(** One call across an interface, with its arguments and its result. *)
Inductive Event :=
| EvValidateGenesis (mb : AppModuleBasic.t) (bz : RawMessage) (err : option error)
| EvInitGenesis (m : AppModule.t) (bz : RawMessage) (ret : list ValidatorUpdate)
| EvExportGenesis (m : AppModule.t) (ret : RawMessage)
| EvBeginBlock (m : AppModule.t) (req : RequestBeginBlock) (ret : Tags.t)
| EvEndBlock (m : AppModule.t) (req : RequestEndBlock)
             (ret : list ValidatorUpdate * Tags.t)
| EvRouterAddRoute (r : string) (h : Handler)
| EvQueryRouterAddRoute (r : string) (q : Querier).

Record World := { store : Ctx; calls : list Event }.

(** A computation either returns or panics; either way it leaves the state
    and the log as they were when it stopped. *)
Definition M (A : Type) : Type := World -> Outcome A * World.

Definition ret {A} (a : A) : M A := fun w => (Ok a, w).

Definition bind {A B} (c : M A) (k : A -> M B) : M B :=
  fun w =>
    match c w with
    | (Ok a, w') => k a w'
    | (Panic v, w') => (Panic v, w')
    end.

Definition panic {A} (v : PanicValue) : M A := fun w => (Panic v, w).

Definition record (e : Event) : M unit :=
  fun w => (Ok tt, {| store := store w; calls := calls w ++ [e] |}).

(** The receiver of a method call: a nil interface value panics. *)
Definition deref {A} (o : option A) : M A :=
  match o with
  | Some a => ret a
  | None => panic NilPointerDereference
  end.

(** [for _, x := range l { acc = body x acc }] over a slice. *)
Fixpoint range {A S} (l : list A) (body : A -> S -> M S) (acc : S) : M S :=
  match l with
  | [] => ret acc
  | x :: rest => bind (body x acc) (range rest body)
  end.

(** Run a computation on a state with an empty log. *)
Definition exec {A} (c : M A) (ctx : Ctx) : Outcome A * World :=
  c {| store := ctx; calls := [] |}.
End effects.

Declare Scope go_scope.
Delimit Scope go_scope with go.
Notation "x <- c ;; k" := (bind c (fun x => k))
  (at level 100, c at next level, right associativity) : go_scope.
Notation "c ;;; k" := (bind c (fun _ => k))
  (at level 100, right associativity) : go_scope.

Local Open Scope go_scope.

(** ** Calls across the module interfaces *)
Section calls.
Context `{Env}.

(** A hook that takes the [Context]: it runs on the current state, and the
    call is logged with what it returned. *)
Definition hook {A} (f : Ctx -> A * Ctx) (ev : A -> Event) : M A :=
  fun w =>
    let (a, ctx') := f (store w) in
    (Ok a, {| store := ctx'; calls := calls w ++ [ev a] |}).

Definition call_ValidateGenesis (mb : AppModuleBasic.t) (bz : RawMessage)
  : M (option error) :=
  let err := AppModuleBasic.ValidateGenesis mb bz in
  record (EvValidateGenesis mb bz err) ;;; ret err.

Definition call_InitGenesis (m : AppModule.t) (bz : RawMessage)
  : M (list ValidatorUpdate) :=
  hook (fun ctx => AppModule.InitGenesis m ctx bz) (EvInitGenesis m bz).

Definition call_ExportGenesis (m : AppModule.t) : M RawMessage :=
  hook (AppModule.ExportGenesis m) (EvExportGenesis m).

Definition call_BeginBlock (m : AppModule.t) (req : RequestBeginBlock)
  : M Tags.t :=
  hook (fun ctx => AppModule.BeginBlock m ctx req) (EvBeginBlock m req).

Definition call_EndBlock (m : AppModule.t) (req : RequestEndBlock)
  : M (list ValidatorUpdate * Tags.t) :=
  hook (fun ctx => AppModule.EndBlock m ctx req) (EvEndBlock m req).

(** The routers are collaborators behind an interface: a registration is
    the call [AddRoute] made on them. *)
Definition Router_AddRoute (r : string) (h : Handler) : M unit :=
  record (EvRouterAddRoute r h).

Definition QueryRouter_AddRoute (r : string) (q : Querier) : M unit :=
  record (EvQueryRouterAddRoute r q).
End calls.

(** ** The responses handed back to the consensus engine

    Only the fields that module.go fills in. *)
Module abci.
Module ResponseInitChain.
Section resp.
Context `{Env}.
Record t := { Validators : list ValidatorUpdate }.
End resp.
End ResponseInitChain.

Module ResponseBeginBlock.
Record t := { Tags : list Tags.KVPair }.
End ResponseBeginBlock.

Module ResponseEndBlock.
Section resp.
Context `{Env}.
Record t := {
  ValidatorUpdates : list ValidatorUpdate;
  Tags : list Tags.KVPair;
}.
End resp.
End ResponseEndBlock.
End abci.

(** ** ModuleBasicManager *)
Module ModuleBasicManager.
Section mbm.
Context `{Env}.

(** [type ModuleBasicManager []AppModuleBasic] *)
Definition t : Type := list AppModuleBasic.t.

Definition NewModuleBasicManager (modules : list AppModuleBasic.t) : t :=
  modules.

Definition DefaultGenesis (mbm : t) : gmap string RawMessage :=
  foldl (fun genesis mb =>
           <[AppModuleBasic.Name mb := AppModuleBasic.DefaultGenesis mb]> genesis)
        ∅ mbm.

(** The loop returns from inside its body at the first non-nil error. *)
Fixpoint ValidateGenesis (mbm : t) (genesis : gmap string RawMessage)
  : M (option error) :=
  match mbm with
  | [] => ret None
  | mb :: rest =>
      err <- call_ValidateGenesis mb (index genesis (AppModuleBasic.Name mb));;
      match err with
      | Some e => ret (Some e)
      | None => ValidateGenesis rest genesis
      end
  end.
End mbm.
End ModuleBasicManager.

(** ** ModuleManager *)
Module ModuleManager.
Section mm.
Context `{Env}.

Record t := {
  Modules : gmap string AppModule.t;
  OrderInitGenesis : list string;
  OrderExportGenesis : list string;
  OrderBeginBlockers : list string;
  OrderEndBlockers : list string;
}.

(** The loop of [NewModuleManager]: one map store and one append per
    module.  The four orderings of the new manager share the one slice of
    names; the setters put another slice in a field and nothing writes into
    a slice in place, so the sharing cannot be observed. *)
Definition register (acc : gmap string AppModule.t * list string)
           (module : AppModule.t) : gmap string AppModule.t * list string :=
  (<[AppModule.Name module := module]> acc.1, acc.2 ++ [AppModule.Name module]).

Definition NewModuleManager (modules : list AppModule.t) : t :=
  let (moduleMap, modulesStr) := foldl register (∅, []) modules in
  {| Modules := moduleMap;
     OrderInitGenesis := modulesStr;
     OrderExportGenesis := modulesStr;
     OrderBeginBlockers := modulesStr;
     OrderEndBlockers := modulesStr |}.

Definition SetOrderInitGenesis (mm : t) (moduleNames : list string) : t :=
  {| Modules := Modules mm;
     OrderInitGenesis := moduleNames;
     OrderExportGenesis := OrderExportGenesis mm;
     OrderBeginBlockers := OrderBeginBlockers mm;
     OrderEndBlockers := OrderEndBlockers mm |}.

Definition SetOrderExportGenesis (mm : t) (moduleNames : list string) : t :=
  {| Modules := Modules mm;
     OrderInitGenesis := OrderInitGenesis mm;
     OrderExportGenesis := moduleNames;
     OrderBeginBlockers := OrderBeginBlockers mm;
     OrderEndBlockers := OrderEndBlockers mm |}.

Definition SetOrderBeginBlockers (mm : t) (moduleNames : list string) : t :=
  {| Modules := Modules mm;
     OrderInitGenesis := OrderInitGenesis mm;
     OrderExportGenesis := OrderExportGenesis mm;
     OrderBeginBlockers := moduleNames;
     OrderEndBlockers := OrderEndBlockers mm |}.

Definition SetOrderEndBlockers (mm : t) (moduleNames : list string) : t :=
  {| Modules := Modules mm;
     OrderInitGenesis := OrderInitGenesis mm;
     OrderExportGenesis := OrderExportGenesis mm;
     OrderBeginBlockers := OrderBeginBlockers mm;
     OrderEndBlockers := moduleNames |}.

(** [for _, module := range mm.Modules]: Go presents every entry of the
    map once, in an order it does not specify.  [visit] is the order of
    one such run. *)
Definition map_range (mm : t) (visit : list (string * AppModule.t)) : Prop :=
  visit ≡ₚ map_to_list (Modules mm).

Definition RegisterRoutes_body (entry : string * AppModule.t) (_ : unit)
  : M unit :=
  let module := entry.2 in
  (if decide (AppModule.Route module ≠ "")
   then Router_AddRoute (AppModule.Route module) (AppModule.NewHandler module)
   else ret tt) ;;;
  (if decide (AppModule.QuerierRoute module ≠ "")
   then QueryRouter_AddRoute (AppModule.QuerierRoute module)
                             (AppModule.NewQuerierHandler module)
   else ret tt).

Definition RegisterRoutes (visit : list (string * AppModule.t)) : M unit :=
  range visit RegisterRoutes_body tt.

Definition InitGenesis_body (mm : t) (genesisData : gmap string RawMessage)
           (moduleName : string) (validatorUpdates : list ValidatorUpdate)
  : M (list ValidatorUpdate) :=
  match index genesisData moduleName with
  | None => ret validatorUpdates
  | Some bz =>
      module <- deref (Modules mm !! moduleName);;
      moduleValUpdates <- call_InitGenesis module (Some bz);;
      if decide (0 < length moduleValUpdates)
      then ret moduleValUpdates
      else ret validatorUpdates
  end.

Definition InitGenesis (mm : t) (genesisData : gmap string RawMessage)
  : M abci.ResponseInitChain.t :=
  validatorUpdates <-
    range (OrderInitGenesis mm) (InitGenesis_body mm genesisData) [];;
  ret {| abci.ResponseInitChain.Validators := validatorUpdates |}.

Definition ExportGenesis_body (mm : t) (moduleName : string)
           (genesisData : gmap string RawMessage)
  : M (gmap string RawMessage) :=
  module <- deref (Modules mm !! moduleName);;
  bz <- call_ExportGenesis module;;
  ret (<[moduleName := bz]> genesisData).

Definition ExportGenesis (mm : t) : M (gmap string RawMessage) :=
  range (OrderExportGenesis mm) (ExportGenesis_body mm) ∅.

Definition BeginBlock_body (mm : t) (req : RequestBeginBlock)
           (moduleName : string) (tags : Tags.t) : M Tags.t :=
  module <- deref (Modules mm !! moduleName);;
  moduleTags <- call_BeginBlock module req;;
  ret (Tags.AppendTags tags moduleTags).

Definition BeginBlock (mm : t) (req : RequestBeginBlock)
  : M abci.ResponseBeginBlock.t :=
  tags <- range (OrderBeginBlockers mm) (BeginBlock_body mm req) Tags.EmptyTags;;
  ret {| abci.ResponseBeginBlock.Tags := Tags.ToKVPairs tags |}.

Definition EndBlock_body (mm : t) (req : RequestEndBlock)
           (moduleName : string) (acc : list ValidatorUpdate * Tags.t)
  : M (list ValidatorUpdate * Tags.t) :=
  let (validatorUpdates, tags) := acc in
  module <- deref (Modules mm !! moduleName);;
  r <- call_EndBlock module req;;
  let (moduleValUpdates, moduleTags) := r in
  let tags := Tags.AppendTags tags moduleTags in
  if decide (0 < length moduleValUpdates)
  then ret (moduleValUpdates, tags)
  else ret (validatorUpdates, tags).

Definition EndBlock (mm : t) (req : RequestEndBlock)
  : M abci.ResponseEndBlock.t :=
  acc <- range (OrderEndBlockers mm) (EndBlock_body mm req) ([], Tags.EmptyTags);;
  ret {| abci.ResponseEndBlock.ValidatorUpdates := acc.1;
         abci.ResponseEndBlock.Tags := acc.2 |}.
End mm.
End ModuleManager.

(** ** Reading the call log *)
Section log.
Context `{Env}.

(** The module whose hook a logged call ran. *)
Definition event_module (e : Event) : option AppModule.t :=
  match e with
  | EvInitGenesis m _ _ | EvExportGenesis m _
  | EvBeginBlock m _ _ | EvEndBlock m _ _ => Some m
  | _ => None
  end.

(** The validator updates a logged call returned. *)
Definition event_updates (e : Event) : list ValidatorUpdate :=
  match e with
  | EvInitGenesis _ _ r => r
  | EvEndBlock _ _ r => r.1
  | _ => []
  end.

(** The tags a logged call returned. *)
Definition event_tags (e : Event) : Tags.t :=
  match e with
  | EvBeginBlock _ _ r => r
  | EvEndBlock _ _ r => r.2
  | _ => []
  end.

(** The payload a logged export returned. *)
Definition event_payload (e : Event) : RawMessage :=
  match e with
  | EvExportGenesis _ r => r
  | _ => None
  end.

(** The registrations made on the transaction router, in the order made. *)
Definition router_routes (log : list Event) : list (string * Handler) :=
  omap (fun e => match e with
                 | EvRouterAddRoute r h => Some (r, h)
                 | _ => None
                 end) log.

(** The registrations made on the query router, in the order made. *)
Definition query_routes (log : list Event) : list (string * Querier) :=
  omap (fun e => match e with
                 | EvQueryRouterAddRoute r q => Some (r, q)
                 | _ => None
                 end) log.

(** What [ValidateGenesis] hands to a basic module: its own entry of the
    genesis map. *)
Definition own_entry (genesis : gmap string RawMessage) (mb : AppModuleBasic.t)
  : RawMessage :=
  index genesis (AppModuleBasic.Name mb).

(** The world after [log] has been added to the call log. *)
Definition log_after (w : World) (log : list Event) : World :=
  {| store := store w; calls := calls w ++ log |}.

(** The verdict of a basic module on its own entry. *)
Definition verdict (genesis : gmap string RawMessage) (mb : AppModuleBasic.t)
  : option error :=
  AppModuleBasic.ValidateGenesis mb (own_entry genesis mb).

(** The reading of "the reported error identifies the failing module":
    the name of the first rejecting module can be read off the error, by
    one function [who] that serves every registry and every genesis map. *)
Definition error_names_module (who : error -> string) : Prop :=
  forall (mbm : ModuleBasicManager.t) (genesis : gmap string RawMessage)
         (ctx : Ctx) (e : error) (w : World),
    exec (ModuleBasicManager.ValidateGenesis mbm genesis) ctx = (Ok (Some e), w) ->
    exists pre mb post,
      mbm = pre ++ mb :: post
      /\ Forall (fun b => verdict genesis b = None) pre
      /\ is_Some (verdict genesis mb)
      /\ who e = AppModuleBasic.Name mb.

(** The call of a basic module's validator on its own entry. *)
Definition validate_call (genesis : gmap string RawMessage)
           (mb : AppModuleBasic.t) : Event :=
  EvValidateGenesis mb (own_entry genesis mb) (verdict genesis mb).

(** [log] holds one call per name of [names], in that order, each on the
    module the manager's map holds under the name and of the shape [P]. *)
Definition called (mm : ModuleManager.t)
           (P : string -> AppModule.t -> Event -> Prop)
           (names : list string) (log : list Event) : Prop :=
  Forall2 (fun n e => exists m, ModuleManager.Modules mm !! n = Some m /\ P n m e)
          names log.

Definition is_InitGenesis (genesisData : gmap string RawMessage)
           (n : string) (m : AppModule.t) (e : Event) : Prop :=
  exists r, e = EvInitGenesis m (index genesisData n) r.

Definition is_ExportGenesis (n : string) (m : AppModule.t) (e : Event) : Prop :=
  exists r, e = EvExportGenesis m r.

Definition is_BeginBlock (req : RequestBeginBlock)
           (n : string) (m : AppModule.t) (e : Event) : Prop :=
  exists r, e = EvBeginBlock m req r.

Definition is_EndBlock (req : RequestEndBlock)
           (n : string) (m : AppModule.t) (e : Event) : Prop :=
  exists r, e = EvEndBlock m req r.

(** No logged call ran a hook of [m]. *)
Definition never_called (m : AppModule.t) (log : list Event) : Prop :=
  Forall (fun e => event_module e <> Some m) log.

(** The manager's map holds [m] under the name [k] and under no other. *)
Definition only_under (mm : ModuleManager.t) (k : string) (m : AppModule.t) : Prop :=
  forall k', ModuleManager.Modules mm !! k' = Some m -> k' = k.

(** The registrations that [RegisterRoutes] makes for one entry of the
    module map. *)
Definition route_calls (entry : string * AppModule.t) : list Event :=
  (if decide (AppModule.Route entry.2 ≠ "")
   then [EvRouterAddRoute (AppModule.Route entry.2) (AppModule.NewHandler entry.2)]
   else [])
  ++ (if decide (AppModule.QuerierRoute entry.2 ≠ "")
      then [EvQueryRouterAddRoute (AppModule.QuerierRoute entry.2)
                                  (AppModule.NewQuerierHandler entry.2)]
      else []).

(** Every name of [names] has a module in the manager's map. *)
Definition registered (mm : ModuleManager.t) (names : list string) : Prop :=
  Forall (fun n => is_Some (ModuleManager.Modules mm !! n)) names.

(** The names that [InitGenesis] does not skip: those with a non-nil entry
    in the genesis map. *)
Definition with_genesis (genesisData : gmap string RawMessage)
           (names : list string) : list string :=
  filter (fun n => is_Some (index genesisData n)) names.

(** The last-non-empty rule in the words of the spec: of the update lists
    returned, in iteration order, the last one that is non-empty; the empty
    list when there is none. *)
Definition last_non_empty (returned : list (list ValidatorUpdate))
  : list ValidatorUpdate :=
  default [] (last (filter (fun r => 0 < length r) returned)).

(** The common shape of the lifecycle loops' bodies: look the name up in
    the manager's map, call one hook of the module found there, and fold
    what it returned into the running result. *)
Definition via_module {R S} (mm : ModuleManager.t)
           (f : string -> AppModule.t -> Ctx -> R * Ctx)
           (ev : string -> AppModule.t -> R -> Event)
           (combine : string -> S -> R -> S)
           (moduleName : string) (acc : S) : M S :=
  module <- deref (ModuleManager.Modules mm !! moduleName);;
  r <- hook (f moduleName module) (ev moduleName module);;
  ret (combine moduleName acc r).

(** The running result after the names [names] returned [returned]. *)
Definition folded {R S} (combine : string -> S -> R -> S) (acc : S)
           (names : list string) (returned : list R) : S :=
  foldl (fun a nr => combine nr.1 a nr.2) acc (zip names returned).

(** The running result of the loops: a non-empty list replaces it, an
    empty one leaves it. *)
Definition keep_or_replace (validatorUpdates moduleValUpdates : list ValidatorUpdate)
  : list ValidatorUpdate :=
  if decide (0 < length moduleValUpdates) then moduleValUpdates
  else validatorUpdates.
End log.

(** ** A small application, for the concrete instances of the theorems

    The chain state is the journal of the hooks that ran; a validator update
    is a voting power; a request is a block height; handlers, queriers and
    errors are named by strings. *)
Definition demo_env : Env :=
  {| Ctx := list string;
     ValidatorUpdate := nat;
     RequestBeginBlock := nat;
     RequestEndBlock := nat;
     Handler := string;
     Querier := string;
     error := string |}.

Section demo.
Local Existing Instance demo_env.

(** A basic module that rejects every genesis entry with [verr], or
    accepts every entry when [verr] is [None]. *)
Definition demo_basic (name : string) (verr : option string) : AppModuleBasic.t :=
  {| AppModuleBasic.Name := name;
     AppModuleBasic.DefaultGenesis := Some [];
     AppModuleBasic.ValidateGenesis := fun _ => verr |}.

(** A module whose hooks write their name in the journal and return the
    given updates and tags. *)
Definition demo_module (name route querierRoute : string)
           (updates : list nat) (tags : Tags.t) : AppModule.t :=
  {| AppModule.Basic := demo_basic name None;
     AppModule.Route := route;
     AppModule.NewHandler := String.append name "Handler";
     AppModule.QuerierRoute := querierRoute;
     AppModule.NewQuerierHandler := String.append name "Querier";
     AppModule.InitGenesis := fun (ctx : list string) _ => (updates, ctx ++ [name]);
     AppModule.ExportGenesis := fun (ctx : list string) => (Some [], ctx ++ [name]);
     AppModule.BeginBlock := fun (ctx : list string) _ => (tags, ctx ++ [name]);
     AppModule.EndBlock := fun (ctx : list string) _ => ((updates, tags), ctx ++ [name]) |}.

Definition tagA : Tags.KVPair := {| Tags.Key := "action"; Tags.Value := "a" |}.
Definition tagB : Tags.KVPair := {| Tags.Key := "action"; Tags.Value := "b" |}.

Definition modA : AppModule.t := demo_module "a" "a" "" [7] [tagA].
Definition modB : AppModule.t := demo_module "b" "" "b" [] [tagB].
Definition modC : AppModule.t := demo_module "c" "c" "c" [3; 4] [tagA].
(** A second module that calls itself "a". *)
Definition modA' : AppModule.t := demo_module "a" "a2" "" [9] [tagB].

Definition demo_manager : ModuleManager.t :=
  ModuleManager.NewModuleManager [modA; modB; modC].

(** Genesis data with entries for "a" and "c" and none for "b". *)
Definition demo_genesis : gmap string RawMessage :=
  <["a" := Some []]> (<["c" := Some []]> ∅).

(** The demo manager with the name "zz", which has no module, put in all
    four orderings, and "c" left out of them. *)
Definition demo_manager_zz : ModuleManager.t :=
  ModuleManager.SetOrderEndBlockers
    (ModuleManager.SetOrderBeginBlockers
       (ModuleManager.SetOrderExportGenesis
          (ModuleManager.SetOrderInitGenesis demo_manager ["b"; "zz"; "a"])
          ["b"; "zz"; "a"])
       ["b"; "zz"; "a"])
    ["b"; "zz"; "a"].

(** Genesis data with an entry for every name, "zz" included. *)
Definition demo_genesis_zz : gmap string RawMessage :=
  <["b" := Some []]> (<["zz" := Some []]> demo_genesis).

Definition basicA : AppModuleBasic.t := demo_basic "a" (Some "invalid genesis").
Definition basicB : AppModuleBasic.t := demo_basic "b" (Some "invalid genesis").
Definition basicC : AppModuleBasic.t := demo_basic "c" None.
End demo.

(** ** Reference runs and the client commands *)
Section reference.
Context `{Env}.

(** The manager's map holds, under the names [names], the modules [ms],
    position by position. *)
Definition resolved (mm : ModuleManager.t) (names : list string)
           (ms : list AppModule.t) : Prop :=
  Forall2 (fun n m => ModuleManager.Modules mm !! n = Some m) names ms.

(** Hooks run one after the other, each on the state the one before it
    left: what each returned, and the state after the last. *)
Fixpoint run_hooks {A R} (f : A -> Ctx -> R * Ctx) (xs : list A) (ctx : Ctx)
  : list R * Ctx :=
  match xs with
  | [] => ([], ctx)
  | x :: rest =>
      ((f x ctx).1 :: (run_hooks f rest (f x ctx).2).1,
       (run_hooks f rest (f x ctx).2).2)
  end.

(** The last module of a list that goes by the name [n]. *)
Definition last_named (n : string) (ms : list AppModule.t) : option AppModule.t :=
  last (filter (fun m => AppModule.Name m = n) ms).

(** The last basic module of a registry that goes by the name [n]. *)
Definition last_basic_named (n : string) (mbm : list AppModuleBasic.t)
  : option AppModuleBasic.t :=
  last (filter (fun mb => AppModuleBasic.Name mb = n) mbm).
End reference.

(** The two command getters of [AppModuleBasic] and the two functions of the
    registry that use them.  [Command] stands for a non-nil [*cobra.Command]
    and [AddCommand] for the method of that name of the root command, both
    from the cobra library; a getter returns [None] for the nil command. *)
Module Client.
Section client.
Context `{Env} {Command : Type}.
Variable AddCommand : Command -> Command -> Command.

Record t := {
  Basic : AppModuleBasic.t;
  GetQueryCmd : option Command;
  GetTxCmd : option Command;
}.

Definition AddTxCommands (mbm : list t) (rootTxCmd : Command) : Command :=
  foldl (fun root mb =>
           match GetTxCmd mb with
           | Some cmd => AddCommand root cmd
           | None => root
           end) rootTxCmd mbm.

Definition AddQueryCommands (mbm : list t) (rootQueryCmd : Command) : Command :=
  foldl (fun root mb =>
           match GetQueryCmd mb with
           | Some cmd => AddCommand root cmd
           | None => root
           end) rootQueryCmd mbm.
End client.
End Client.

(** More of the small application: a registry whose modules have defaults
    and accept the entries as long as their own default, and client modules with and without commands.  A command is the list of
    the names under it. *)
Section demo_more.
Local Existing Instance demo_env.

Definition basicD (name : string) (dflt : RawMessage) : AppModuleBasic.t :=
  {| AppModuleBasic.Name := name;
     AppModuleBasic.DefaultGenesis := dflt;
     AppModuleBasic.ValidateGenesis :=
       fun bz => if decide (length <$> bz = length <$> dflt) then None
                 else Some "not the default" |}.

Definition demo_registry : list AppModuleBasic.t :=
  [basicD "a" (Some []); basicD "b" None; basicD "c" (Some [Byte.x7b; Byte.x7d])].

Definition demo_add (root cmd : list string) : list string := root ++ cmd.

Definition demo_clients : list (@Client.t demo_env (list string)) :=
  [ {| Client.Basic := basicC; Client.GetQueryCmd := Some ["c query"];
       Client.GetTxCmd := None |};
    {| Client.Basic := basicA; Client.GetQueryCmd := None;
       Client.GetTxCmd := Some ["a tx"] |};
    {| Client.Basic := basicB; Client.GetQueryCmd := Some ["b query"];
       Client.GetTxCmd := Some ["b tx"] |} ].
End demo_more.

(** * Properties *)

(** ** Sequencing and loops *)
Section monad_facts.
Context `{Env}.

Lemma range_app {A S} (l1 l2 : list A) (body : A -> S -> M S) (acc : S) (w : World) :
  range (l1 ++ l2) body acc w = bind (range l1 body acc) (range l2 body) w.
Proof.
  revert acc w; induction l1 as [|x l1 IH]; intros acc w; [reflexivity|].
  cbn [app range]. unfold bind in *.
  destruct (body x acc w) as [[acc'|v] w']; [|reflexivity].
  by rewrite IH.
Qed.

Lemma range_snoc {A S} (l : list A) (x : A) (body : A -> S -> M S) (acc : S) (w : World) :
  range (l ++ [x]) body acc w = bind (range l body acc) (body x) w.
Proof.
  rewrite range_app. unfold bind. destruct (range l body acc w) as [[acc'|v] w']; [|done].
  cbn. unfold bind, ret. by destruct (body x acc' w') as [[?|?] ?].
Qed.
End monad_facts.

(** Unfold one step of a computation down to its effect on the world. *)
Ltac run_step :=
  cbv [bind ret record panic deref hook
       call_ValidateGenesis call_InitGenesis call_ExportGenesis
       call_BeginBlock call_EndBlock Router_AddRoute QueryRouter_AddRoute];
  cbn [store calls].

(** ** The constructor and the setters *)
Section construction.
Context `{Env}.

Lemma foldl_register (modules : list AppModule.t)
      (mp : gmap string AppModule.t) (strs : list string) :
  foldl ModuleManager.register (mp, strs) modules
  = (foldl (fun mp m => <[AppModule.Name m := m]> mp) mp modules,
     strs ++ (AppModule.Name <$> modules)).
Proof.
  revert mp strs; induction modules as [|m ms IH]; intros mp strs; cbn.
  - by rewrite app_nil_r.
  - unfold ModuleManager.register at 2. cbn [fst snd].
    rewrite IH. by rewrite <- app_assoc.
Qed.

Lemma NewModuleManager_unfold (modules : list AppModule.t) :
  ModuleManager.NewModuleManager modules
  = let names := AppModule.Name <$> modules in
    {| ModuleManager.Modules :=
         foldl (fun mp m => <[AppModule.Name m := m]> mp) ∅ modules;
       ModuleManager.OrderInitGenesis := names;
       ModuleManager.OrderExportGenesis := names;
       ModuleManager.OrderBeginBlockers := names;
       ModuleManager.OrderEndBlockers := names |}.
Proof. unfold ModuleManager.NewModuleManager. by rewrite foldl_register. Qed.

(** C7. The manager built from a module list has its four orderings
    (init-genesis, export-genesis, begin-block, end-block) all equal to the
    names of the modules in the order they were passed. *)
Theorem NewModuleManager_default_orderings (modules : list AppModule.t) :
  let mm := ModuleManager.NewModuleManager modules in
  ModuleManager.OrderInitGenesis mm = AppModule.Name <$> modules
  /\ ModuleManager.OrderExportGenesis mm = AppModule.Name <$> modules
  /\ ModuleManager.OrderBeginBlockers mm = AppModule.Name <$> modules
  /\ ModuleManager.OrderEndBlockers mm = AppModule.Name <$> modules.
Proof. cbv zeta. rewrite NewModuleManager_unfold. by repeat split. Qed.

(** C8. Each of the four setters stores the names it is given in its own
    ordering, whatever they are (no check against the module map, no check
    that they form a permutation), and leaves the other three orderings
    and the module map as they were. *)
Theorem setters_replace_own_ordering_only (mm : ModuleManager.t) (moduleNames : list string) :
  (let mm' := ModuleManager.SetOrderInitGenesis mm moduleNames in
   ModuleManager.OrderInitGenesis mm' = moduleNames
   /\ ModuleManager.OrderExportGenesis mm' = ModuleManager.OrderExportGenesis mm
   /\ ModuleManager.OrderBeginBlockers mm' = ModuleManager.OrderBeginBlockers mm
   /\ ModuleManager.OrderEndBlockers mm' = ModuleManager.OrderEndBlockers mm
   /\ ModuleManager.Modules mm' = ModuleManager.Modules mm)
  /\ (let mm' := ModuleManager.SetOrderExportGenesis mm moduleNames in
      ModuleManager.OrderExportGenesis mm' = moduleNames
      /\ ModuleManager.OrderInitGenesis mm' = ModuleManager.OrderInitGenesis mm
      /\ ModuleManager.OrderBeginBlockers mm' = ModuleManager.OrderBeginBlockers mm
      /\ ModuleManager.OrderEndBlockers mm' = ModuleManager.OrderEndBlockers mm
      /\ ModuleManager.Modules mm' = ModuleManager.Modules mm)
  /\ (let mm' := ModuleManager.SetOrderBeginBlockers mm moduleNames in
      ModuleManager.OrderBeginBlockers mm' = moduleNames
      /\ ModuleManager.OrderInitGenesis mm' = ModuleManager.OrderInitGenesis mm
      /\ ModuleManager.OrderExportGenesis mm' = ModuleManager.OrderExportGenesis mm
      /\ ModuleManager.OrderEndBlockers mm' = ModuleManager.OrderEndBlockers mm
      /\ ModuleManager.Modules mm' = ModuleManager.Modules mm)
  /\ (let mm' := ModuleManager.SetOrderEndBlockers mm moduleNames in
      ModuleManager.OrderEndBlockers mm' = moduleNames
      /\ ModuleManager.OrderInitGenesis mm' = ModuleManager.OrderInitGenesis mm
      /\ ModuleManager.OrderExportGenesis mm' = ModuleManager.OrderExportGenesis mm
      /\ ModuleManager.OrderBeginBlockers mm' = ModuleManager.OrderBeginBlockers mm
      /\ ModuleManager.Modules mm' = ModuleManager.Modules mm).
Proof. repeat split. Qed.
End construction.

(** ** Genesis validation *)
Section validation.
Context `{Env}.

(** Modules that accept their entry are called one after the other and
    the loop goes on. *)
Lemma ValidateGenesis_accepting (pre rest : list AppModuleBasic.t)
      (genesis : gmap string RawMessage) (w : World) :
  Forall (fun mb => verdict genesis mb = None) pre ->
  ModuleBasicManager.ValidateGenesis (pre ++ rest) genesis w
  = ModuleBasicManager.ValidateGenesis rest genesis
      (log_after w (validate_call genesis <$> pre)).
Proof.
  intros Hpre; revert w; induction Hpre as [|mb pre Hmb _ IH]; intros w.
  - destruct w; unfold log_after; cbn. by rewrite app_nil_r.
  - cbn [app ModuleBasicManager.ValidateGenesis]. run_step.
    fold (own_entry genesis mb). fold (verdict genesis mb). rewrite Hmb.
    rewrite IH. unfold log_after; cbn.
    unfold validate_call at 2. by rewrite Hmb, <- app_assoc.
Qed.

Lemma ValidateGenesis_rejecting (mb : AppModuleBasic.t) (post : list AppModuleBasic.t)
      (genesis : gmap string RawMessage) (e : error) (w : World) :
  verdict genesis mb = Some e ->
  ModuleBasicManager.ValidateGenesis (mb :: post) genesis w
  = (Ok (Some e), log_after w [validate_call genesis mb]).
Proof.
  intros Hmb. cbn [ModuleBasicManager.ValidateGenesis]. run_step.
  fold (own_entry genesis mb). fold (verdict genesis mb). rewrite Hmb.
  unfold log_after, validate_call. by rewrite Hmb.
Qed.

(** Every registry splits at its first rejecting module, if it has one. *)
Lemma first_rejecting (mbm : list AppModuleBasic.t) (genesis : gmap string RawMessage) :
  Forall (fun mb => verdict genesis mb = None) mbm
  \/ exists pre mb post e,
      mbm = pre ++ mb :: post
      /\ Forall (fun b => verdict genesis b = None) pre
      /\ verdict genesis mb = Some e.
Proof.
  induction mbm as [|mb rest IH]; [by left|].
  destruct (verdict genesis mb) as [e|] eqn:Hmb.
  - right. exists [], mb, rest, e. by repeat split.
  - destruct IH as [IH|(pre & mb' & post & e & -> & Hpre & Hmb')].
    + left. by constructor.
    + right. exists (mb :: pre), mb', post, e. repeat split; [|done]. by constructor.
Qed.

Lemma ValidateGenesis_stops (pre post : list AppModuleBasic.t) (mb : AppModuleBasic.t)
      (genesis : gmap string RawMessage) (e : error) (ctx : Ctx) :
  Forall (fun b => verdict genesis b = None) pre ->
  verdict genesis mb = Some e ->
  exec (ModuleBasicManager.ValidateGenesis (pre ++ mb :: post) genesis) ctx
  = (Ok (Some e),
     {| store := ctx; calls := validate_call genesis <$> (pre ++ [mb]) |}).
Proof.
  intros Hpre Hmb. unfold exec.
  rewrite ValidateGenesis_accepting by done.
  rewrite (ValidateGenesis_rejecting _ _ _ e) by done.
  unfold log_after; cbn. by rewrite fmap_app.
Qed.

Lemma ValidateGenesis_passes (mbm : list AppModuleBasic.t)
      (genesis : gmap string RawMessage) (ctx : Ctx) :
  Forall (fun b => verdict genesis b = None) mbm ->
  exec (ModuleBasicManager.ValidateGenesis mbm genesis) ctx
  = (Ok None, {| store := ctx; calls := validate_call genesis <$> mbm |}).
Proof.
  intros Hall. unfold exec.
  rewrite <- (app_nil_r mbm) at 1. by rewrite ValidateGenesis_accepting.
Qed.

(** C3. [ValidateGenesis] goes through the registry in registration order
    and hands each module its own entry of the genesis map (nil when the
    map has none).  At the first module whose validator reports an error it
    returns that error, having called the validators of the modules up to
    and including that one and of no later module.  When no validator
    reports an error it returns nil, having called them all. *)
Theorem ValidateGenesis_fail_fast (mbm : ModuleBasicManager.t)
        (genesis : gmap string RawMessage) (ctx : Ctx) :
  (forall pre mb post e,
      mbm = pre ++ mb :: post ->
      Forall (fun b => verdict genesis b = None) pre ->
      verdict genesis mb = Some e ->
      exec (ModuleBasicManager.ValidateGenesis mbm genesis) ctx
      = (Ok (Some e),
         {| store := ctx; calls := validate_call genesis <$> (pre ++ [mb]) |}))
  /\ (Forall (fun b => verdict genesis b = None) mbm ->
      exec (ModuleBasicManager.ValidateGenesis mbm genesis) ctx
      = (Ok None, {| store := ctx; calls := validate_call genesis <$> mbm |})).
Proof.
  split.
  - intros pre mb post e -> Hpre Hmb. by apply ValidateGenesis_stops.
  - apply ValidateGenesis_passes.
Qed.

(** C4, as the code has it.  When validation fails, the error handed to the
    caller is the very error value that the validator of the first
    rejecting module returned on its own entry: it is passed on unchanged,
    and the registry adds nothing to it that names the module. *)
Theorem ValidateGenesis_error_is_the_modules (mbm : ModuleBasicManager.t)
        (genesis : gmap string RawMessage) (ctx : Ctx) (e : error) (w : World) :
  exec (ModuleBasicManager.ValidateGenesis mbm genesis) ctx = (Ok (Some e), w) ->
  exists pre mb post,
    mbm = pre ++ mb :: post
    /\ Forall (fun b => verdict genesis b = None) pre
    /\ AppModuleBasic.ValidateGenesis mb (index genesis (AppModuleBasic.Name mb)) = Some e.
Proof.
  intros Hrun.
  destruct (first_rejecting mbm genesis) as [Hall|(pre & mb & post & e' & -> & Hpre & Hmb)].
  - rewrite ValidateGenesis_passes in Hrun by done. discriminate.
  - rewrite (ValidateGenesis_stops pre post mb genesis e') in Hrun by done.
    exists pre, mb, post. repeat split; [done|].
    fold (own_entry genesis mb). fold (verdict genesis mb). congruence.
Qed.
End validation.

(** ** Loops that call one hook per listed name *)
Section module_loops.
Context `{Env} {R S : Type}.
Variable mm : ModuleManager.t.
Variable f : string -> AppModule.t -> Ctx -> R * Ctx.
Variable ev : string -> AppModule.t -> R -> Event.
Variable out : Event -> R.
Variable combine : string -> S -> R -> S.
Hypothesis out_ev : forall n m r, out (ev n m r) = r.

Local Abbreviation body := (via_module mm f ev combine).
Local Abbreviation shape :=
  (fun (n : string) (m : AppModule.t) (e : Event) => exists r, e = ev n m r).

Lemma via_module_nil (n : string) (acc : S) (w : World) :
  ModuleManager.Modules mm !! n = None ->
  body n acc w = (Panic NilPointerDereference, w).
Proof. intros Hn. unfold via_module. by rewrite Hn. Qed.

Lemma via_module_call (n : string) (m : AppModule.t) (acc : S) (w : World) :
  ModuleManager.Modules mm !! n = Some m ->
  body n acc w
  = (Ok (combine n acc (f n m (store w)).1),
     {| store := (f n m (store w)).2;
        calls := calls w ++ [ev n m (f n m (store w)).1] |}).
Proof.
  intros Hn. unfold via_module. rewrite Hn. run_step.
  by destruct (f n m (store w)).
Qed.

(** When every listed name has a module, the loop returns; it has made one
    call per name, in order, and folded what the calls returned. *)
Lemma loop_returns (names : list string) (acc : S) (w : World) :
  registered mm names ->
  exists log ctx',
    range names body acc w
    = (Ok (folded combine acc names (out <$> log)),
       {| store := ctx'; calls := calls w ++ log |})
    /\ called mm shape names log.
Proof.
  intros Hreg; revert acc w; induction Hreg as [|n names [m Hn] _ IH]; intros acc w.
  - exists [], (store w). split; [|constructor].
    destruct w; cbn. by rewrite app_nil_r.
  - cbn [range]. unfold bind. rewrite (via_module_call n m) by done.
    set (r := (f n m (store w)).1). set (ctx1 := (f n m (store w)).2).
    destruct (IH (combine n acc r) {| store := ctx1; calls := calls w ++ [ev n m r] |})
      as (log & ctx' & -> & Hlog).
    exists (ev n m r :: log), ctx'. split.
    + cbn [calls fmap list_fmap]. rewrite <- app_assoc. unfold folded; cbn.
      by rewrite out_ev.
    + constructor; [|done]. exists m. split; [done|]. by exists r.
Qed.

(** At the first listed name without a module, the loop panics on the nil
    receiver; it has made the calls for the names before it and no other. *)
Lemma loop_panics (pre post : list string) (n : string) (acc : S) (w : World) :
  registered mm pre ->
  ModuleManager.Modules mm !! n = None ->
  exists log ctx',
    range (pre ++ n :: post) body acc w
    = (Panic NilPointerDereference, {| store := ctx'; calls := calls w ++ log |})
    /\ called mm shape pre log.
Proof.
  intros Hpre Hn.
  destruct (loop_returns pre acc w Hpre) as (log & ctx' & Hrun & Hlog).
  exists log, ctx'. split; [|done].
  rewrite range_app. unfold bind at 1. rewrite Hrun.
  cbn [range]. unfold bind. by rewrite via_module_nil.
Qed.

(** A list of names splits at its first name without a module, if any. *)
Lemma first_missing (names : list string) :
  registered mm names
  \/ exists pre n post,
      names = pre ++ n :: post
      /\ registered mm pre
      /\ ModuleManager.Modules mm !! n = None.
Proof.
  induction names as [|n names IH]; [left; constructor|].
  destruct (ModuleManager.Modules mm !! n) as [m|] eqn:Hn.
  - destruct IH as [IH|(pre & n' & post & -> & Hpre & Hn')].
    + left. constructor; [by exists m|done].
    + right. exists (n :: pre), n', post. repeat split; [|done].
      constructor; [by exists m|done].
  - right. exists [], n, names. repeat split; [constructor|done].
Qed.

(** Whatever the outcome, the calls made are calls for listed names. *)
Lemma loop_calls_listed (names : list string) (acc : S) (w : World) :
  exists log,
    calls (range names body acc w).2 = calls w ++ log
    /\ Forall (fun e => exists n m, n ∈ names
                                    /\ ModuleManager.Modules mm !! n = Some m
                                    /\ shape n m e) log.
Proof.
  assert (Hsub : forall pre log,
             called mm shape pre log -> pre ⊆ names ->
             Forall (fun e => exists n m, n ∈ names
                                          /\ ModuleManager.Modules mm !! n = Some m
                                          /\ shape n m e) log).
  { intros pre log Hlog Hpre. induction Hlog as [|n e pre log (m & Hm & He) _ IH].
    - constructor.
    - constructor.
      + exists n, m. split; [|done]. apply Hpre. by left.
      + apply IH. intros x Hx. apply Hpre. by right. }
  destruct (first_missing names) as [Hreg|(pre & n & post & -> & Hpre & Hn)].
  - destruct (loop_returns names acc w Hreg) as (log & ctx' & -> & Hlog).
    exists log. split; [done|]. by apply (Hsub names).
  - destruct (loop_panics pre post n acc w Hpre Hn) as (log & ctx' & -> & Hlog).
    exists log. split; [done|]. apply (Hsub pre); [done|].
    intros x Hx. apply elem_of_app. by left.
Qed.
End module_loops.

(** ** The four lifecycle loops as loops over modules *)
Section lifecycle_loops.
Context `{Env}.
Variable mm : ModuleManager.t.

Lemma range_ext {A T} (l : list A) (body body' : A -> T -> M T) (acc : T) (w : World) :
  (forall x a v, body x a v = body' x a v) ->
  range l body acc w = range l body' acc w.
Proof.
  intros Hext; revert acc w; induction l as [|x l IH]; intros acc w; [done|].
  cbn [range]. unfold bind. rewrite Hext.
  destruct (body' x acc w) as [[a|v] w']; [apply IH|done].
Qed.

Lemma BeginBlock_body_via (req : RequestBeginBlock) :
  ModuleManager.BeginBlock_body mm req
  = via_module mm (fun _ m ctx => AppModule.BeginBlock m ctx req)
               (fun _ m => EvBeginBlock m req)
               (fun _ tags moduleTags => Tags.AppendTags tags moduleTags).
Proof. reflexivity. Qed.

Lemma ExportGenesis_body_via :
  ModuleManager.ExportGenesis_body mm
  = via_module mm (fun _ m => AppModule.ExportGenesis m)
               (fun _ m => EvExportGenesis m)
               (fun n genesisData bz => <[n := bz]> genesisData).
Proof. reflexivity. Qed.

Lemma EndBlock_body_via (req : RequestEndBlock) (n : string)
      (acc : list ValidatorUpdate * Tags.t) (w : World) :
  ModuleManager.EndBlock_body mm req n acc w
  = via_module mm (fun _ m ctx => AppModule.EndBlock m ctx req)
               (fun _ m => EvEndBlock m req)
               (fun _ a r => (keep_or_replace a.1 r.1, Tags.AppendTags a.2 r.2))
               n acc w.
Proof.
  destruct acc as [validatorUpdates tags].
  unfold ModuleManager.EndBlock_body, via_module, keep_or_replace.
  destruct (ModuleManager.Modules mm !! n) as [m|]; [|done]. run_step.
  destruct (AppModule.EndBlock m (store w) req) as [[moduleValUpdates moduleTags] ctx'].
  cbn [fst snd]. by case_decide.
Qed.

Lemma InitGenesis_body_skip (genesisData : gmap string RawMessage) (n : string)
      (acc : list ValidatorUpdate) (w : World) :
  index genesisData n = None ->
  ModuleManager.InitGenesis_body mm genesisData n acc w = (Ok acc, w).
Proof. intros Hn. unfold ModuleManager.InitGenesis_body. by rewrite Hn. Qed.

Lemma InitGenesis_body_via (genesisData : gmap string RawMessage) (n : string)
      (acc : list ValidatorUpdate) (w : World) :
  is_Some (index genesisData n) ->
  ModuleManager.InitGenesis_body mm genesisData n acc w
  = via_module mm (fun n m ctx => AppModule.InitGenesis m ctx (index genesisData n))
               (fun n m => EvInitGenesis m (index genesisData n))
               (fun _ => keep_or_replace)
               n acc w.
Proof.
  intros [bz Hn]. unfold ModuleManager.InitGenesis_body, via_module. rewrite Hn.
  destruct (ModuleManager.Modules mm !! n) as [m|]; [|done]. run_step.
  destruct (AppModule.InitGenesis m (store w) (Some bz)) as [moduleValUpdates ctx'].
  unfold keep_or_replace. by case_decide.
Qed.

(** The names with a nil or absent entry are passed over: the loop of
    [InitGenesis] is a loop over the remaining names. *)
Lemma InitGenesis_loop_via (genesisData : gmap string RawMessage)
      (names : list string) (acc : list ValidatorUpdate) (w : World) :
  range names (ModuleManager.InitGenesis_body mm genesisData) acc w
  = range (with_genesis genesisData names)
          (via_module mm (fun n m ctx => AppModule.InitGenesis m ctx (index genesisData n))
                      (fun n m => EvInitGenesis m (index genesisData n))
                      (fun _ => keep_or_replace))
          acc w.
Proof.
  revert acc w; induction names as [|n names IH]; intros acc w; [done|].
  unfold with_genesis. rewrite filter_cons. fold (with_genesis genesisData names).
  cbn [range]. unfold bind at 1.
  destruct (decide (is_Some (index genesisData n))) as [Hn|Hn].
  - rewrite InitGenesis_body_via by done. cbn [range]. unfold bind.
    match goal with |- context [via_module ?a ?b ?c ?d n acc w] =>
      destruct (via_module a b c d n acc w) as [[a'|v] w'] end; [apply IH|done].
  - rewrite InitGenesis_body_skip; [apply IH|].
    destruct (index genesisData n); [|done]. destruct Hn; by eexists.
Qed.

(** ** Folding what the calls returned *)

Lemma folded_ignoring_names {R T} (g : T -> R -> T) (acc : T)
      (names : list string) (returned : list R) :
  length names = length returned ->
  folded (fun _ => g) acc names returned = foldl g acc returned.
Proof.
  unfold folded. revert acc returned; induction names as [|n names IH];
    intros acc [|r returned] Hlen; try done.
  cbn. apply IH. cbn in Hlen. lia.
Qed.

Lemma foldl_AppendTags (tags : Tags.t) (returned : list Tags.t) :
  foldl Tags.AppendTags tags returned = tags ++ concat returned.
Proof.
  revert tags; induction returned as [|r returned IH]; intros tags; cbn.
  - by rewrite app_nil_r.
  - rewrite IH. unfold Tags.AppendTags. by rewrite <- app_assoc.
Qed.

Lemma foldl_keep_or_replace (acc : list ValidatorUpdate)
      (returned : list (list ValidatorUpdate)) :
  foldl keep_or_replace acc returned
  = default acc (last (filter (fun r => 0 < length r) returned)).
Proof.
  revert acc; induction returned as [|r returned IH]; intros acc; [done|].
  cbn [foldl]. rewrite IH, filter_cons. unfold keep_or_replace.
  case_decide; [|done].
  rewrite last_cons. by destruct (last _).
Qed.

Lemma foldl_EndBlock (acc : list ValidatorUpdate * Tags.t)
      (returned : list (list ValidatorUpdate * Tags.t)) :
  foldl (fun a r => (keep_or_replace a.1 r.1, Tags.AppendTags a.2 r.2)) acc returned
  = (foldl keep_or_replace acc.1 returned.*1, foldl Tags.AppendTags acc.2 returned.*2).
Proof.
  revert acc; induction returned as [|r returned IH]; intros acc.
  - by destruct acc.
  - cbn [foldl fmap list_fmap]. by rewrite IH.
Qed.

Lemma called_length (P : string -> AppModule.t -> Event -> Prop)
      (names : list string) (log : list Event) :
  called mm P names log -> length names = length log.
Proof. apply Forall2_length. Qed.

(** The law of the last-non-empty rule: one more returned list replaces
    the result when it is non-empty and leaves it when it is empty. *)
Lemma last_non_empty_snoc (returned : list (list ValidatorUpdate))
      (r : list ValidatorUpdate) :
  last_non_empty (returned ++ [r])
  = if decide (0 < length r) then r else last_non_empty returned.
Proof.
  unfold last_non_empty. rewrite filter_app, filter_cons, filter_nil.
  case_decide.
  - by rewrite last_snoc.
  - by rewrite app_nil_r.
Qed.
End lifecycle_loops.

(** ** The lifecycle calls *)
Section lifecycle.
Context `{Env}.
Variable mm : ModuleManager.t.

Local Abbreviation empty_log ctx := {| store := ctx; calls := [] |}.
Local Abbreviation BeginBlock_loop lemma req :=
  (lemma mm (fun _ m ctx => AppModule.BeginBlock m ctx req)
         (fun _ m => EvBeginBlock m req) event_tags
         (fun _ tags moduleTags => Tags.AppendTags tags moduleTags)
         (fun _ _ _ => eq_refl)).
Local Abbreviation EndBlock_loop lemma req :=
  (lemma mm (fun _ m ctx => AppModule.EndBlock m ctx req)
         (fun _ m => EvEndBlock m req)
         (fun e => (event_updates e, event_tags e))
         (fun _ a r => (keep_or_replace a.1 r.1, Tags.AppendTags a.2 r.2))
         (fun _ _ r => match r with (_, _) => eq_refl end)).
Local Abbreviation ExportGenesis_loop lemma :=
  (lemma mm (fun _ m => AppModule.ExportGenesis m)
         (fun _ m => EvExportGenesis m) event_payload
         (fun n (genesisData : gmap string RawMessage) bz => <[n := bz]> genesisData)
         (fun _ _ _ => eq_refl)).
Local Abbreviation InitGenesis_loop lemma genesisData :=
  (lemma mm (fun n m ctx => AppModule.InitGenesis m ctx (index genesisData n))
         (fun n m => EvInitGenesis m (index genesisData n)) event_updates
         (fun _ => keep_or_replace)
         (fun _ _ _ => eq_refl)).
Ltac finish_calls_listed Hcalls :=
  cbn [calls app] in Hcalls;
  match goal with |- context [range ?l ?b ?a ?v] =>
    destruct (range l b a v) as [[a'|v'] w'] end;
  cbn in Hcalls |- *; by rewrite Hcalls.

(** *** BeginBlock *)

Lemma BeginBlock_panics (req : RequestBeginBlock) (ctx : Ctx)
      (pre post : list string) (n : string) :
  ModuleManager.OrderBeginBlockers mm = pre ++ n :: post ->
  registered mm pre ->
  ModuleManager.Modules mm !! n = None ->
  exists w,
    exec (ModuleManager.BeginBlock mm req) ctx = (Panic NilPointerDereference, w)
    /\ called mm (is_BeginBlock req) pre (calls w).
Proof.
  intros Horder Hpre Hn. unfold exec, ModuleManager.BeginBlock, bind.
  rewrite BeginBlock_body_via, Horder.
  destruct (BeginBlock_loop loop_panics req pre post n Tags.EmptyTags (empty_log ctx) Hpre Hn)
    as (log & ctx' & -> & Hlog).
  exists {| store := ctx'; calls := log |}. split; [done|exact Hlog].
Qed.

Lemma BeginBlock_calls_listed (req : RequestBeginBlock) (ctx : Ctx) :
  Forall (fun e => exists n m, n ∈ ModuleManager.OrderBeginBlockers mm
                               /\ ModuleManager.Modules mm !! n = Some m
                               /\ is_BeginBlock req n m e)
         (calls (exec (ModuleManager.BeginBlock mm req) ctx).2).
Proof.
  unfold exec, ModuleManager.BeginBlock, bind. rewrite BeginBlock_body_via.
  destruct (BeginBlock_loop loop_calls_listed req (ModuleManager.OrderBeginBlockers mm)
              Tags.EmptyTags (empty_log ctx))
    as (log & Hcalls & Hlog).
  finish_calls_listed Hcalls.
Qed.

(** *** EndBlock *)

Lemma EndBlock_panics (req : RequestEndBlock) (ctx : Ctx)
      (pre post : list string) (n : string) :
  ModuleManager.OrderEndBlockers mm = pre ++ n :: post ->
  registered mm pre ->
  ModuleManager.Modules mm !! n = None ->
  exists w,
    exec (ModuleManager.EndBlock mm req) ctx = (Panic NilPointerDereference, w)
    /\ called mm (is_EndBlock req) pre (calls w).
Proof.
  intros Horder Hpre Hn. unfold exec, ModuleManager.EndBlock, bind.
  rewrite (range_ext _ _ _ _ _ (EndBlock_body_via mm req)), Horder.
  destruct (EndBlock_loop loop_panics req pre post n ([], Tags.EmptyTags)
              (empty_log ctx) Hpre Hn)
    as (log & ctx' & -> & Hlog).
  exists {| store := ctx'; calls := log |}. split; [done|exact Hlog].
Qed.

Lemma EndBlock_calls_listed (req : RequestEndBlock) (ctx : Ctx) :
  Forall (fun e => exists n m, n ∈ ModuleManager.OrderEndBlockers mm
                               /\ ModuleManager.Modules mm !! n = Some m
                               /\ is_EndBlock req n m e)
         (calls (exec (ModuleManager.EndBlock mm req) ctx).2).
Proof.
  unfold exec, ModuleManager.EndBlock, bind.
  rewrite (range_ext _ _ _ _ _ (EndBlock_body_via mm req)).
  destruct (EndBlock_loop loop_calls_listed req (ModuleManager.OrderEndBlockers mm)
              ([], Tags.EmptyTags) (empty_log ctx))
    as (log & Hcalls & Hlog).
  finish_calls_listed Hcalls.
Qed.

(** *** ExportGenesis *)

Lemma ExportGenesis_returns (ctx : Ctx) :
  registered mm (ModuleManager.OrderExportGenesis mm) ->
  exists w,
    exec (ModuleManager.ExportGenesis mm) ctx
    = (Ok (folded (fun n (genesisData : gmap string RawMessage) bz =>
                     <[n := bz]> genesisData) ∅
                  (ModuleManager.OrderExportGenesis mm)
                  (event_payload <$> calls w)), w)
    /\ called mm is_ExportGenesis (ModuleManager.OrderExportGenesis mm) (calls w).
Proof.
  intros Hreg. unfold exec, ModuleManager.ExportGenesis.
  rewrite ExportGenesis_body_via.
  destruct (ExportGenesis_loop loop_returns _ (∅ : gmap string RawMessage) (empty_log ctx) Hreg)
    as (log & ctx' & -> & Hlog).
  exists {| store := ctx'; calls := log |}. split; [done|exact Hlog].
Qed.

Lemma ExportGenesis_panics (ctx : Ctx) (pre post : list string) (n : string) :
  ModuleManager.OrderExportGenesis mm = pre ++ n :: post ->
  registered mm pre ->
  ModuleManager.Modules mm !! n = None ->
  exists w,
    exec (ModuleManager.ExportGenesis mm) ctx = (Panic NilPointerDereference, w)
    /\ called mm is_ExportGenesis pre (calls w).
Proof.
  intros Horder Hpre Hn. unfold exec, ModuleManager.ExportGenesis.
  rewrite ExportGenesis_body_via, Horder.
  destruct (ExportGenesis_loop loop_panics pre post n (∅ : gmap string RawMessage) (empty_log ctx) Hpre Hn)
    as (log & ctx' & -> & Hlog).
  exists {| store := ctx'; calls := log |}. split; [done|exact Hlog].
Qed.

Lemma ExportGenesis_calls_listed (ctx : Ctx) :
  Forall (fun e => exists n m, n ∈ ModuleManager.OrderExportGenesis mm
                               /\ ModuleManager.Modules mm !! n = Some m
                               /\ is_ExportGenesis n m e)
         (calls (exec (ModuleManager.ExportGenesis mm) ctx).2).
Proof.
  unfold exec, ModuleManager.ExportGenesis. rewrite ExportGenesis_body_via.
  destruct (ExportGenesis_loop loop_calls_listed (ModuleManager.OrderExportGenesis mm)
              (∅ : gmap string RawMessage) (empty_log ctx))
    as (log & Hcalls & Hlog).
  cbn [calls app] in Hcalls. by rewrite Hcalls.
Qed.

(** *** InitGenesis *)

Lemma with_genesis_app (genesisData : gmap string RawMessage) (l1 l2 : list string) :
  with_genesis genesisData (l1 ++ l2)
  = with_genesis genesisData l1 ++ with_genesis genesisData l2.
Proof. apply filter_app. Qed.

Lemma with_genesis_cons_nil (genesisData : gmap string RawMessage)
      (n : string) (l : list string) :
  index genesisData n = None ->
  with_genesis genesisData (n :: l) = with_genesis genesisData l.
Proof.
  intros Hn. unfold with_genesis. rewrite filter_cons, decide_False; [done|].
  rewrite Hn. by intros [? ?].
Qed.

Lemma with_genesis_cons_entry (genesisData : gmap string RawMessage)
      (n : string) (l : list string) :
  is_Some (index genesisData n) ->
  with_genesis genesisData (n :: l) = n :: with_genesis genesisData l.
Proof. intros Hn. unfold with_genesis. by rewrite filter_cons, decide_True. Qed.

Lemma InitGenesis_panics (genesisData : gmap string RawMessage) (ctx : Ctx)
      (pre post : list string) (n : string) :
  ModuleManager.OrderInitGenesis mm = pre ++ n :: post ->
  registered mm (with_genesis genesisData pre) ->
  is_Some (index genesisData n) ->
  ModuleManager.Modules mm !! n = None ->
  exists w,
    exec (ModuleManager.InitGenesis mm genesisData) ctx
    = (Panic NilPointerDereference, w)
    /\ called mm (is_InitGenesis genesisData) (with_genesis genesisData pre) (calls w).
Proof.
  intros Horder Hpre Hentry Hn. unfold exec, ModuleManager.InitGenesis, bind.
  rewrite InitGenesis_loop_via, Horder, with_genesis_app, with_genesis_cons_entry by done.
  destruct (InitGenesis_loop loop_panics genesisData _
              (with_genesis genesisData post) n [] (empty_log ctx) Hpre Hn)
    as (log & ctx' & -> & Hlog).
  exists {| store := ctx'; calls := log |}. split; [done|exact Hlog].
Qed.

Lemma InitGenesis_skips (genesisData : gmap string RawMessage) (ctx : Ctx)
      (pre post : list string) (n : string) :
  ModuleManager.OrderInitGenesis mm = pre ++ n :: post ->
  index genesisData n = None ->
  exec (ModuleManager.InitGenesis mm genesisData) ctx
  = exec (ModuleManager.InitGenesis
            (ModuleManager.SetOrderInitGenesis mm (pre ++ post)) genesisData) ctx.
Proof.
  intros Horder Hn. unfold exec, ModuleManager.InitGenesis, bind.
  rewrite !InitGenesis_loop_via, Horder.
  change (ModuleManager.OrderInitGenesis
            (ModuleManager.SetOrderInitGenesis mm (pre ++ post))) with (pre ++ post).
  rewrite !with_genesis_app, with_genesis_cons_nil by done.
  reflexivity.
Qed.

Lemma InitGenesis_calls_listed (genesisData : gmap string RawMessage) (ctx : Ctx) :
  Forall (fun e => exists n m, n ∈ with_genesis genesisData (ModuleManager.OrderInitGenesis mm)
                               /\ ModuleManager.Modules mm !! n = Some m
                               /\ is_InitGenesis genesisData n m e)
         (calls (exec (ModuleManager.InitGenesis mm genesisData) ctx).2).
Proof.
  unfold exec, ModuleManager.InitGenesis, bind. rewrite InitGenesis_loop_via.
  destruct (InitGenesis_loop loop_calls_listed genesisData
              (with_genesis genesisData (ModuleManager.OrderInitGenesis mm))
              [] (empty_log ctx))
    as (log & Hcalls & Hlog).
  finish_calls_listed Hcalls.
Qed.
End lifecycle.

(** ** What the lifecycle calls return and whom they call *)
Section lifecycle_claims.
Context `{Env}.

Lemma never_called_of_listed (mm : ModuleManager.t) (names : list string)
      (P : string -> AppModule.t -> Event -> Prop) (log : list Event)
      (k : string) (m : AppModule.t) :
  (forall n m' e, P n m' e -> event_module e = Some m') ->
  only_under mm k m ->
  k ∉ names ->
  Forall (fun e => exists n m', n ∈ names
                                /\ ModuleManager.Modules mm !! n = Some m'
                                /\ P n m' e) log ->
  never_called m log.
Proof.
  intros HP Honly Hk Hlog. eapply Forall_impl; [exact Hlog|].
  intros e (n & m' & Hn & Hm' & He) Hem.
  rewrite (HP _ _ _ He) in Hem. injection Hem as ->.
  by rewrite (Honly n Hm') in Hn.
Qed.

(** C9. A name that is in an ordering and has no module in the map makes
    the lifecycle call panic on the nil receiver when the loop gets to it:
    the modules of the names before it have been called, in order, and
    nothing after.  [InitGenesis] first passes over such a name when its
    genesis entry is nil or absent: the call then runs as if the name were
    not in the init order.  And a module whose only name in the map is not
    in an ordering is never called by that lifecycle call. *)
Theorem missing_and_omitted_names (mm : ModuleManager.t) :
  (forall n,
      ModuleManager.Modules mm !! n = None ->
      (forall req ctx pre post,
          ModuleManager.OrderBeginBlockers mm = pre ++ n :: post ->
          registered mm pre ->
          exists w,
            exec (ModuleManager.BeginBlock mm req) ctx = (Panic NilPointerDereference, w)
            /\ called mm (is_BeginBlock req) pre (calls w))
      /\ (forall req ctx pre post,
             ModuleManager.OrderEndBlockers mm = pre ++ n :: post ->
             registered mm pre ->
             exists w,
               exec (ModuleManager.EndBlock mm req) ctx = (Panic NilPointerDereference, w)
               /\ called mm (is_EndBlock req) pre (calls w))
      /\ (forall ctx pre post,
             ModuleManager.OrderExportGenesis mm = pre ++ n :: post ->
             registered mm pre ->
             exists w,
               exec (ModuleManager.ExportGenesis mm) ctx = (Panic NilPointerDereference, w)
               /\ called mm is_ExportGenesis pre (calls w))
      /\ (forall genesisData ctx pre post,
             ModuleManager.OrderInitGenesis mm = pre ++ n :: post ->
             (index genesisData n = None ->
              exec (ModuleManager.InitGenesis mm genesisData) ctx
              = exec (ModuleManager.InitGenesis
                        (ModuleManager.SetOrderInitGenesis mm (pre ++ post))
                        genesisData) ctx)
             /\ (is_Some (index genesisData n) ->
                 registered mm (with_genesis genesisData pre) ->
                 exists w,
                   exec (ModuleManager.InitGenesis mm genesisData) ctx
                   = (Panic NilPointerDereference, w)
                   /\ called mm (is_InitGenesis genesisData)
                             (with_genesis genesisData pre) (calls w))))
  /\ (forall k m,
         ModuleManager.Modules mm !! k = Some m ->
         only_under mm k m ->
         (forall req ctx,
             k ∉ ModuleManager.OrderBeginBlockers mm ->
             never_called m (calls (exec (ModuleManager.BeginBlock mm req) ctx).2))
         /\ (forall req ctx,
                k ∉ ModuleManager.OrderEndBlockers mm ->
                never_called m (calls (exec (ModuleManager.EndBlock mm req) ctx).2))
         /\ (forall ctx,
                k ∉ ModuleManager.OrderExportGenesis mm ->
                never_called m (calls (exec (ModuleManager.ExportGenesis mm) ctx).2))
         /\ (forall genesisData ctx,
                k ∉ ModuleManager.OrderInitGenesis mm ->
                never_called m
                  (calls (exec (ModuleManager.InitGenesis mm genesisData) ctx).2))).
Proof.
  split.
  - intros n Hn. split; [|split; [|split]].
    + intros req ctx pre post Horder Hpre. by eapply BeginBlock_panics.
    + intros req ctx pre post Horder Hpre. by eapply EndBlock_panics.
    + intros ctx pre post Horder Hpre. by eapply ExportGenesis_panics.
    + intros genesisData ctx pre post Horder. split.
      * intros Hnil. by apply (InitGenesis_skips mm genesisData ctx pre post n).
      * intros Hentry Hpre. by eapply InitGenesis_panics.
  - intros k m Hk Honly. split; [|split; [|split]].
    + intros req ctx Hout.
      eapply never_called_of_listed; [|done|exact Hout|apply BeginBlock_calls_listed].
      by intros n m' e [r ->].
    + intros req ctx Hout.
      eapply never_called_of_listed; [|done|exact Hout|apply EndBlock_calls_listed].
      by intros n m' e [r ->].
    + intros ctx Hout.
      eapply never_called_of_listed; [|done|exact Hout|apply ExportGenesis_calls_listed].
      by intros n m' e [r ->].
    + intros genesisData ctx Hout.
      eapply never_called_of_listed with (names := with_genesis genesisData _);
        [|done| |apply InitGenesis_calls_listed].
      * by intros n m' e [r ->].
      * intros Hin. apply list_elem_of_filter in Hin as [_ Hin]. done.
Qed.
End lifecycle_claims.

(** ** Route registration *)
Section routes.
Context `{Env}.

Lemma RegisterRoutes_body_run (entry : string * AppModule.t) (w : World) :
  ModuleManager.RegisterRoutes_body entry tt w = (Ok tt, log_after w (route_calls entry)).
Proof.
  unfold ModuleManager.RegisterRoutes_body, route_calls, log_after.
  destruct w as [ctx log]. do 2 case_decide; run_step; cbn;
    by rewrite <- ?app_assoc, ?app_nil_r.
Qed.

Lemma RegisterRoutes_run (visit : list (string * AppModule.t)) (w : World) :
  ModuleManager.RegisterRoutes visit w
  = (Ok tt, log_after w (concat (route_calls <$> visit))).
Proof.
  unfold ModuleManager.RegisterRoutes.
  revert w; induction visit as [|entry visit IH]; intros w.
  - destruct w; unfold log_after; cbn. by rewrite app_nil_r.
  - cbn [range]. unfold bind. rewrite RegisterRoutes_body_run, IH.
    unfold log_after; cbn. by rewrite <- app_assoc.
Qed.

Lemma router_routes_route_calls (visit : list (string * AppModule.t)) :
  router_routes (concat (route_calls <$> visit))
  = (fun entry => (AppModule.Route entry.2, AppModule.NewHandler entry.2))
      <$> filter (fun entry => AppModule.Route entry.2 ≠ "") visit.
Proof.
  unfold router_routes. induction visit as [|entry visit IH]; [done|].
  cbn [fmap list_fmap concat]. rewrite omap_app, IH, filter_cons.
  unfold route_calls. by do 2 case_decide.
Qed.

Lemma query_routes_route_calls (visit : list (string * AppModule.t)) :
  query_routes (concat (route_calls <$> visit))
  = (fun entry => (AppModule.QuerierRoute entry.2, AppModule.NewQuerierHandler entry.2))
      <$> filter (fun entry => AppModule.QuerierRoute entry.2 ≠ "") visit.
Proof.
  unfold query_routes. induction visit as [|entry visit IH]; [done|].
  cbn [fmap list_fmap concat]. rewrite omap_app, IH, filter_cons.
  unfold route_calls. by do 2 case_decide.
Qed.

(** C6. [RegisterRoutes] visits every entry of the module map once.  The
    registrations it makes on the transaction router are, one for one, the
    pairs (route, handler) of the entries whose module has a non-empty
    route, each with the handler of that very module; a module whose route
    is the empty string adds none, so no registration has the empty route.
    The same holds of the querier routes on the query router. *)
Theorem RegisterRoutes_gating (mm : ModuleManager.t)
        (visit : list (string * AppModule.t)) (ctx : Ctx) :
  ModuleManager.map_range mm visit ->
  exists w,
    exec (ModuleManager.RegisterRoutes visit) ctx = (Ok tt, w)
    /\ router_routes (calls w)
       ≡ₚ (fun entry => (AppModule.Route entry.2, AppModule.NewHandler entry.2))
            <$> filter (fun entry => AppModule.Route entry.2 ≠ "")
                       (map_to_list (ModuleManager.Modules mm))
    /\ query_routes (calls w)
       ≡ₚ (fun entry => (AppModule.QuerierRoute entry.2,
                         AppModule.NewQuerierHandler entry.2))
            <$> filter (fun entry => AppModule.QuerierRoute entry.2 ≠ "")
                       (map_to_list (ModuleManager.Modules mm))
    /\ Forall (fun rh => rh.1 ≠ "") (router_routes (calls w))
    /\ Forall (fun rq => rq.1 ≠ "") (query_routes (calls w)).
Proof.
  intros Hvisit. unfold ModuleManager.map_range in Hvisit.
  unfold exec. rewrite RegisterRoutes_run.
  eexists. split; [done|]. cbn [log_after calls app].
  rewrite router_routes_route_calls, query_routes_route_calls.
  repeat split.
  - by rewrite Hvisit.
  - by rewrite Hvisit.
  - apply Forall_fmap, Forall_forall. intros entry Hentry.
    by apply list_elem_of_filter in Hentry as [? _].
  - apply Forall_fmap, Forall_forall. intros entry Hentry.
    by apply list_elem_of_filter in Hentry as [? _].
Qed.
End routes.

(** ** Two modules under one name *)
Section duplicates.
Context `{Env}.

Lemma filter_none {A} (P : A -> Prop) `{forall x, Decision (P x)} (l : list A) :
  Forall (fun x => ~ P x) l -> filter P l = [].
Proof.
  induction 1 as [|x l Hx _ IH]; [done|]. by rewrite filter_cons, decide_False.
Qed.

(** The map that [NewModuleManager] builds holds, under a name, the last
    module of the list that goes by that name. *)
Lemma foldl_insert_lookup (modules : list AppModule.t)
      (mp : gmap string AppModule.t) (n : string) :
  foldl (fun mp m => <[AppModule.Name m := m]> mp) mp modules !! n
  = match last (filter (fun m => AppModule.Name m = n) modules) with
    | Some m => Some m
    | None => mp !! n
    end.
Proof.
  revert mp; induction modules as [|m modules IH]; intros mp; [done|].
  cbn [foldl]. rewrite IH, filter_cons. case_decide as Hm.
  - rewrite last_cons. destruct (last _); [done|]. by rewrite Hm, lookup_insert_eq.
  - destruct (last _); [done|]. by rewrite lookup_insert_ne.
Qed.

Lemma NewModuleManager_lookup (modules : list AppModule.t) (n : string) :
  ModuleManager.Modules (ModuleManager.NewModuleManager modules) !! n
  = last (filter (fun m => AppModule.Name m = n) modules).
Proof.
  rewrite NewModuleManager_unfold. cbn. rewrite foldl_insert_lookup.
  by destruct (last _).
Qed.

(** The map of a constructed manager is keyed by the modules' own names. *)
Lemma NewModuleManager_keyed_by_name (modules : list AppModule.t)
      (k : string) (m : AppModule.t) :
  ModuleManager.Modules (ModuleManager.NewModuleManager modules) !! k = Some m ->
  AppModule.Name m = k.
Proof.
  rewrite NewModuleManager_lookup. intros Hlast.
  assert (Hin : m ∈ filter (fun m => AppModule.Name m = k) modules).
  { rewrite last_lookup in Hlast. by eapply list_elem_of_lookup_2. }
  by apply list_elem_of_filter in Hin as [? _].
Qed.

End duplicates.

(** ** The theorems at work on the small application *)
Section instances.
Local Existing Instance demo_env.

Ltac by_computation := vm_compute; repeat econstructor.

Lemma ValidateGenesis_fail_fast_witness :
  exec (ModuleBasicManager.ValidateGenesis [basicC; basicA; basicB] demo_genesis) []
  = (Ok (Some "invalid genesis"),
     {| store := []; calls := validate_call demo_genesis <$> [basicC; basicA] |})
  /\ exec (ModuleBasicManager.ValidateGenesis [basicC] demo_genesis) []
     = (Ok None, {| store := []; calls := validate_call demo_genesis <$> [basicC] |}).
Proof.
  split.
  - apply (proj1 (ValidateGenesis_fail_fast [basicC; basicA; basicB] demo_genesis [])
             [basicC] basicA [basicB] "invalid genesis");
      [reflexivity | by repeat constructor | reflexivity].
  - apply (proj2 (ValidateGenesis_fail_fast [basicC] demo_genesis []));
      by repeat constructor.
Defined.

Lemma ValidateGenesis_error_is_the_modules_witness :
  exists pre mb post,
    [basicC; basicA; basicB] = pre ++ mb :: post
    /\ Forall (fun b => verdict demo_genesis b = None) pre
    /\ AppModuleBasic.ValidateGenesis mb (index demo_genesis (AppModuleBasic.Name mb))
       = Some "invalid genesis".
Proof.
  apply (ValidateGenesis_error_is_the_modules
           [basicC; basicA; basicB] demo_genesis [] "invalid genesis"
           (exec (ModuleBasicManager.ValidateGenesis
                    [basicC; basicA; basicB] demo_genesis) []).2).
  reflexivity.
Defined.

(** Counterexample to C4 as stated.  The registries [basicA] and [basicB] both fail
    validation, each at its only module, and hand the caller one and the
    same error: nothing in it tells "a" from "b". *)
Lemma ValidateGenesis_error_names_no_module :
  ~ exists who : error -> string, error_names_module who.
Proof.
  intros [who Hwho].
  destruct (Hwho [basicA] demo_genesis [] "invalid genesis" _ eq_refl)
    as (preA & mbA & postA & HA & _ & _ & HwhoA).
  destruct (Hwho [basicB] demo_genesis [] "invalid genesis" _ eq_refl)
    as (preB & mbB & postB & HB & _ & _ & HwhoB).
  destruct preA as [|? [|? ?]]; try discriminate HA. injection HA as <- _.
  destruct preB as [|? [|? ?]]; try discriminate HB. injection HB as <- _.
  rewrite HwhoA in HwhoB. discriminate HwhoB.
Qed.

Lemma RegisterRoutes_gating_witness :
  exists w,
    exec (ModuleManager.RegisterRoutes
            (map_to_list (ModuleManager.Modules demo_manager))) [] = (Ok tt, w)
    /\ router_routes (calls w)
       ≡ₚ (fun entry => (AppModule.Route entry.2, AppModule.NewHandler entry.2))
            <$> filter (fun entry => AppModule.Route entry.2 ≠ "")
                       (map_to_list (ModuleManager.Modules demo_manager))
    /\ query_routes (calls w)
       ≡ₚ (fun entry => (AppModule.QuerierRoute entry.2,
                         AppModule.NewQuerierHandler entry.2))
            <$> filter (fun entry => AppModule.QuerierRoute entry.2 ≠ "")
                       (map_to_list (ModuleManager.Modules demo_manager))
    /\ Forall (fun rh => rh.1 ≠ "") (router_routes (calls w))
    /\ Forall (fun rq => rq.1 ≠ "") (query_routes (calls w)).
Proof.
  apply (RegisterRoutes_gating demo_manager
           (map_to_list (ModuleManager.Modules demo_manager)) []).
  unfold ModuleManager.map_range. reflexivity.
Defined.

Lemma missing_and_omitted_names_witness :
  (exists w,
      exec (ModuleManager.BeginBlock demo_manager_zz 1) []
      = (Panic NilPointerDereference, w)
      /\ called demo_manager_zz (is_BeginBlock 1) ["b"] (calls w))
  /\ (exists w,
         exec (ModuleManager.EndBlock demo_manager_zz 1) []
         = (Panic NilPointerDereference, w)
         /\ called demo_manager_zz (is_EndBlock 1) ["b"] (calls w))
  /\ (exists w,
         exec (ModuleManager.ExportGenesis demo_manager_zz) []
         = (Panic NilPointerDereference, w)
         /\ called demo_manager_zz is_ExportGenesis ["b"] (calls w))
  /\ exec (ModuleManager.InitGenesis demo_manager_zz demo_genesis) []
     = exec (ModuleManager.InitGenesis
               (ModuleManager.SetOrderInitGenesis demo_manager_zz (["b"] ++ ["a"]))
               demo_genesis) []
  /\ (exists w,
         exec (ModuleManager.InitGenesis demo_manager_zz demo_genesis_zz) []
         = (Panic NilPointerDereference, w)
         /\ called demo_manager_zz (is_InitGenesis demo_genesis_zz)
                   (with_genesis demo_genesis_zz ["b"]) (calls w))
  /\ never_called modC (calls (exec (ModuleManager.BeginBlock demo_manager_zz 1) []).2)
  /\ never_called modC (calls (exec (ModuleManager.EndBlock demo_manager_zz 1) []).2)
  /\ never_called modC (calls (exec (ModuleManager.ExportGenesis demo_manager_zz) []).2)
  /\ never_called modC
       (calls (exec (ModuleManager.InitGenesis demo_manager_zz demo_genesis) []).2).
Proof.
  destruct (missing_and_omitted_names demo_manager_zz) as [Hmissing Homitted].
  destruct (Hmissing "zz" eq_refl) as (Hbegin & Hend & Hexport & Hinit).
  destruct (Hinit demo_genesis [] ["b"] ["a"] eq_refl) as [Hskip _].
  destruct (Hinit demo_genesis_zz [] ["b"] ["a"] eq_refl) as [_ Hpanic].
  assert (Honly : only_under demo_manager_zz "c" modC).
  { intros k Hk. symmetry.
    exact (NewModuleManager_keyed_by_name [modA; modB; modC] k modC Hk). }
  destruct (Homitted "c" modC eq_refl Honly) as (Hb & He & Hx & Hi).
  assert (Hout : "c" ∉ ["b"; "zz"; "a"])
    by (rewrite !not_elem_of_cons; repeat split; [discriminate..|apply not_elem_of_nil]).
  split; [apply (Hbegin 1 [] ["b"] ["a"] eq_refl); by_computation|].
  split; [apply (Hend 1 [] ["b"] ["a"] eq_refl); by_computation|].
  split; [apply (Hexport [] ["b"] ["a"] eq_refl); by_computation|].
  split; [apply Hskip; reflexivity|].
  split; [apply Hpanic; by_computation|].
  split; [apply Hb, Hout|].
  split; [apply He, Hout|].
  split; [apply Hx, Hout|apply Hi, Hout].
Defined.

(** *** The test cases of the spec, run *)

(** Default ordering, and an override of one ordering that leaves the
    others alone. *)
Example default_ordering_run :
  ModuleManager.OrderEndBlockers
    (ModuleManager.SetOrderBeginBlockers demo_manager ["c"; "a"])
  = ["a"; "b"; "c"]
  /\ ModuleManager.OrderBeginBlockers
       (ModuleManager.SetOrderBeginBlockers demo_manager ["c"; "a"])
     = ["c"; "a"].
Proof. split; reflexivity. Qed.

(** Genesis skip rule: "b" has no entry, only "a" and "c" are called. *)
Example genesis_skip_run :
  omap event_module
       (calls (exec (ModuleManager.InitGenesis demo_manager demo_genesis) []).2)
  = [modA; modC]
  /\ store (exec (ModuleManager.InitGenesis demo_manager demo_genesis) []).2
     = ["a"; "c"].
Proof. split; reflexivity. Qed.

(** Last non-empty wins: "a" returns [7], "b" nothing, "c" returns [3; 4];
    and with "c" left out of the ordering the result is that of "a". *)
Example last_non_empty_run :
  (exec (ModuleManager.EndBlock demo_manager 1) []).1
  = Ok {| abci.ResponseEndBlock.ValidatorUpdates := [3; 4];
          abci.ResponseEndBlock.Tags := [tagA; tagB; tagA] |}
  /\ (exec (ModuleManager.EndBlock
              (ModuleManager.SetOrderEndBlockers demo_manager ["a"; "b"]) 1) []).1
     = Ok {| abci.ResponseEndBlock.ValidatorUpdates := [7];
             abci.ResponseEndBlock.Tags := [tagA; tagB] |}.
Proof. split; reflexivity. Qed.

(** Tag accumulation: the tags of "a" and "c" are equal and both stay. *)
Example tag_order_run :
  (exec (ModuleManager.BeginBlock demo_manager 1) []).1
  = Ok {| abci.ResponseBeginBlock.Tags := [tagA; tagB; tagA] |}.
Proof. reflexivity. Qed.

(** Route gating: "b" has no route and "a" no querier route. *)
Example route_gating_run :
  router_routes (calls (exec (ModuleManager.RegisterRoutes [("a", modA); ("b", modB); ("c", modC)]) []).2)
  = [("a", "aHandler"); ("c", "cHandler")]
  /\ query_routes (calls (exec (ModuleManager.RegisterRoutes [("a", modA); ("b", modB); ("c", modC)]) []).2)
     = [("b", "bQuerier"); ("c", "cQuerier")].
Proof. split; reflexivity. Qed.

(** A name without a module: the call panics after "b" has run. *)
Example missing_module_run :
  (exec (ModuleManager.BeginBlock demo_manager_zz 1) []).1
  = Panic NilPointerDereference
  /\ store (exec (ModuleManager.BeginBlock demo_manager_zz 1) []).2 = ["b"].
Proof. split; reflexivity. Qed.
End instances.

(** * Further properties of the code *)

(** ** Maps built by a loop of stores *)
Section built_maps.
Context {A V : Type}.
Variable key : A -> string.
Variable val : A -> V.

Local Abbreviation store_all :=
  (foldl (fun (mp : gmap string V) x => <[key x := val x]> mp)).

(** After the loop, a key holds the value of the last element that stored
    under it, and what it held before when no element did. *)
Lemma foldl_insert_last (l : list A) (m : gmap string V) (n : string) :
  store_all m l !! n
  = match last (filter (fun x => key x = n) l) with
    | Some x => Some (val x)
    | None => m !! n
    end.
Proof.
  revert m; induction l as [|x l IH]; intros m; [done|].
  cbn [foldl]. rewrite IH, filter_cons. case_decide as Hx.
  - rewrite last_cons. destruct (last _); [done|]. by rewrite Hx, lookup_insert_eq.
  - destruct (last _); [done|]. by rewrite lookup_insert_ne.
Qed.

Lemma last_filter_is_Some (l : list A) (n : string) :
  is_Some (last (filter (fun x => key x = n) l)) <-> n ∈ key <$> l.
Proof.
  rewrite list_elem_of_fmap. split.
  - intros [x Hx]. rewrite last_lookup in Hx. apply list_elem_of_lookup_2 in Hx.
    apply list_elem_of_filter in Hx as [<- Hx]. by exists x.
  - intros (x & -> & Hx).
    destruct (last (filter (fun y => key y = key x) l)) as [y|] eqn:Hlast; [by eexists|].
    apply last_None in Hlast.
    assert (Hin : x ∈ filter (fun y => key y = key x) l) by by apply list_elem_of_filter.
    rewrite Hlast in Hin. by apply elem_of_nil in Hin.
Qed.

Lemma foldl_insert_dom (l : list A) :
  dom (store_all ∅ l) = list_to_set (key <$> l).
Proof.
  apply set_eq. intros n.
  rewrite elem_of_dom, foldl_insert_last, elem_of_list_to_set, <- last_filter_is_Some.
  destruct (last _); [|rewrite lookup_empty]; split; intros [? ?]; by eauto.
Qed.

(** With no two elements of one key, each element is the last of its key. *)
Lemma last_filter_NoDup (l : list A) (x : A) :
  NoDup (key <$> l) -> x ∈ l -> last (filter (fun y => key y = key x) l) = Some x.
Proof.
  induction l as [|y l IH]; intros Hnd Hx; [by apply elem_of_nil in Hx|].
  rewrite fmap_cons in Hnd. apply NoDup_cons in Hnd as [Hy Hnd].
  rewrite filter_cons.
  apply elem_of_cons in Hx as [->|Hx].
  - rewrite decide_True by done. rewrite last_cons.
    destruct (last _) as [z|] eqn:Hz; [|done].
    rewrite last_lookup in Hz. apply list_elem_of_lookup_2 in Hz.
    apply list_elem_of_filter in Hz as [Hkey Hz].
    destruct Hy. rewrite <- Hkey. by apply list_elem_of_fmap_2.
  - rewrite decide_False.
    + by apply IH.
    + intros Hkey. destruct Hy. rewrite Hkey. by apply list_elem_of_fmap_2.
Qed.

Lemma store_all_list_to_map (l : list A) :
  store_all ∅ l = list_to_map (reverse ((fun x => (key x, val x)) <$> l)).
Proof.
  induction l as [|x l IH] using rev_ind; [done|].
  by rewrite foldl_app, fmap_app, reverse_app, IH.
Qed.

(** With no two elements of one key, the map holds the elements as they
    are: one entry each. *)
Lemma store_all_NoDup (l : list A) :
  NoDup (key <$> l) ->
  map_to_list (store_all ∅ l) ≡ₚ (fun x => (key x, val x)) <$> l.
Proof.
  intros Hnd. rewrite store_all_list_to_map, map_to_list_to_map.
  - apply reverse_Permutation.
  - rewrite fmap_reverse, reverse_Permutation, <- list_fmap_compose. done.
Qed.
End built_maps.

(** ** The default genesis of a registry *)
Section default_genesis.
Context `{Env}.

(** X1. The default genesis of a registry has one entry for every name
    that a module of the registry goes by and no other entry; the entry of a
    name is the default of the last module registered under it, so a later
    module of the same name overwrites an earlier one. *)
Theorem DefaultGenesis_entries (mbm : ModuleBasicManager.t) :
  (forall n,
      ModuleBasicManager.DefaultGenesis mbm !! n
      = AppModuleBasic.DefaultGenesis <$> last_basic_named n mbm)
  /\ dom (ModuleBasicManager.DefaultGenesis mbm)
     = list_to_set (AppModuleBasic.Name <$> mbm)
  /\ (forall n, n ∉ AppModuleBasic.Name <$> mbm ->
                ModuleBasicManager.DefaultGenesis mbm !! n = None).
Proof.
  assert (Hlookup : forall n,
             ModuleBasicManager.DefaultGenesis mbm !! n
             = AppModuleBasic.DefaultGenesis <$> last_basic_named n mbm).
  { intros n. unfold ModuleBasicManager.DefaultGenesis, last_basic_named.
    rewrite (foldl_insert_last AppModuleBasic.Name AppModuleBasic.DefaultGenesis).
    by destruct (last _). }
  split; [done|]. split.
  - apply (foldl_insert_dom AppModuleBasic.Name AppModuleBasic.DefaultGenesis).
  - intros n Hn. rewrite Hlookup. unfold last_basic_named.
    destruct (last _) as [mb|] eqn:Hlast; [|done].
    destruct Hn. apply (last_filter_is_Some AppModuleBasic.Name). by eexists.
Qed.

Lemma own_entry_DefaultGenesis (mbm : ModuleBasicManager.t) (mb mb' : AppModuleBasic.t) :
  last_basic_named (AppModuleBasic.Name mb) mbm = Some mb' ->
  own_entry (ModuleBasicManager.DefaultGenesis mbm) mb
  = AppModuleBasic.DefaultGenesis mb'.
Proof.
  intros Hlast. unfold own_entry, index, ModuleBasicManager.DefaultGenesis.
  rewrite (foldl_insert_last AppModuleBasic.Name AppModuleBasic.DefaultGenesis).
  unfold last_basic_named in Hlast. by rewrite Hlast.
Qed.

(** X2. Validating the default genesis of a registry whose modules have
    distinct names hands every module its own default.  So when every module
    accepts its own default, the validation returns nil after calling every
    validator, in registration order, on that module's default. *)
Theorem ValidateGenesis_of_DefaultGenesis (mbm : ModuleBasicManager.t) (ctx : Ctx) :
  NoDup (AppModuleBasic.Name <$> mbm) ->
  Forall (fun mb => AppModuleBasic.ValidateGenesis mb (AppModuleBasic.DefaultGenesis mb)
                    = None) mbm ->
  exec (ModuleBasicManager.ValidateGenesis mbm (ModuleBasicManager.DefaultGenesis mbm)) ctx
  = (Ok None,
     {| store := ctx;
        calls := (fun mb => EvValidateGenesis mb (AppModuleBasic.DefaultGenesis mb) None)
                   <$> mbm |}).
Proof.
  intros Hnd Hok.
  assert (Hown : forall mb, mb ∈ mbm ->
             own_entry (ModuleBasicManager.DefaultGenesis mbm) mb
             = AppModuleBasic.DefaultGenesis mb).
  { intros mb Hmb. apply own_entry_DefaultGenesis.
    by apply (last_filter_NoDup AppModuleBasic.Name). }
  rewrite Forall_forall in Hok.
  rewrite ValidateGenesis_passes.
  - do 2 f_equal. apply Forall_fmap_ext, Forall_forall. intros mb Hmb.
    unfold validate_call, verdict. rewrite (Hown mb Hmb). by rewrite (Hok mb Hmb).
  - apply Forall_forall. intros mb Hmb. unfold verdict.
    rewrite (Hown mb Hmb). by apply Hok.
Qed.

(** X3. Whatever the names, validating the default genesis hands a module
    the default of the last module registered under its name: with two
    modules of one name, the earlier one is validated against the default of
    the later one. *)
Theorem ValidateGenesis_of_DefaultGenesis_shadowed (pre post : list AppModuleBasic.t)
        (mb : AppModuleBasic.t) (ctx : Ctx) :
  let mbm := pre ++ mb :: post in
  let genesis := ModuleBasicManager.DefaultGenesis mbm in
  Forall (fun b => verdict genesis b = None) pre ->
  exists later,
    last_basic_named (AppModuleBasic.Name mb) mbm = Some later
    /\ (Forall (fun b => AppModuleBasic.Name b ≠ AppModuleBasic.Name mb) post ->
        later = mb)
    /\ validate_call genesis mb
       = EvValidateGenesis mb (AppModuleBasic.DefaultGenesis later)
           (AppModuleBasic.ValidateGenesis mb (AppModuleBasic.DefaultGenesis later))
    /\ validate_call genesis mb
       ∈ calls (exec (ModuleBasicManager.ValidateGenesis mbm genesis) ctx).2.
Proof.
  intros mbm genesis Hpre.
  assert (Hsome : is_Some (last_basic_named (AppModuleBasic.Name mb) mbm)).
  { apply (last_filter_is_Some AppModuleBasic.Name). apply list_elem_of_fmap_2.
    apply elem_of_app. right. by left. }
  destruct Hsome as [later Hlater]. exists later. split; [done|]. split; [|split].
  - intros Hpost. unfold last_basic_named, mbm in Hlater.
    rewrite filter_app, filter_cons, decide_True in Hlater by done.
    rewrite (filter_none _ post) in Hlater by done.
    rewrite last_app_cons in Hlater. by injection Hlater.
  - unfold validate_call, verdict, genesis.
    by rewrite (own_entry_DefaultGenesis mbm mb later Hlater).
  - destruct (verdict genesis mb) as [e|] eqn:Hmb.
    + unfold mbm at 1. rewrite (ValidateGenesis_stops pre post mb genesis e) by done.
      cbn [snd calls]. rewrite fmap_app. apply elem_of_app. right. by left.
    + destruct (first_rejecting post genesis)
        as [Hpost|(pre' & mb' & post' & e & -> & Hpre' & Hmb')].
      * rewrite ValidateGenesis_passes.
        -- cbn [snd calls]. apply list_elem_of_fmap_2. apply elem_of_app. right. by left.
        -- apply Forall_app. split; [done|]. by constructor.
      * unfold mbm at 1.
        replace (pre ++ mb :: pre' ++ mb' :: post')
          with ((pre ++ mb :: pre') ++ mb' :: post') by by rewrite <- app_assoc.
        rewrite (ValidateGenesis_stops _ post' mb' genesis e); [|
          apply Forall_app; split; [done|by constructor] | done].
        cbn [snd calls]. apply list_elem_of_fmap_2.
        rewrite <- app_assoc. apply elem_of_app. right. by left.
Qed.
End default_genesis.

(** ** Hooks run on the state the hook before them left *)
Section threading.
Context `{Env}.

Lemma run_hooks_length {A R} (f : A -> Ctx -> R * Ctx) (xs : list A) (ctx : Ctx) :
  length (run_hooks f xs ctx).1 = length xs.
Proof. revert ctx; induction xs as [|x xs IH]; intros ctx; cbn; [done|]. by rewrite IH. Qed.

Lemma run_hooks_fmap {A B R} (g : A -> B) (f : B -> Ctx -> R * Ctx)
      (xs : list A) (ctx : Ctx) :
  run_hooks (fun x => f (g x)) xs ctx = run_hooks f (g <$> xs) ctx.
Proof. revert ctx; induction xs as [|x xs IH]; intros ctx; cbn; [done|]. by rewrite IH. Qed.

Lemma resolved_length (mm : ModuleManager.t) (names : list string) (ms : list AppModule.t) :
  resolved mm names ms -> length names = length ms.
Proof. apply Forall2_length. Qed.

Section loops.
Context {R S : Type}.
Variable mm : ModuleManager.t.
Variable f : string -> AppModule.t -> Ctx -> R * Ctx.
Variable ev : string -> AppModule.t -> R -> Event.
Variable combine : string -> S -> R -> S.

Local Abbreviation hooks names ms ctx :=
  (run_hooks (fun nm : string * AppModule.t => f nm.1 nm.2) (zip names ms) ctx).
Local Abbreviation events names ms rs :=
  (zip_with (fun (nm : string * AppModule.t) r => ev nm.1 nm.2 r) (zip names ms) rs).

(** The loop over names that all have a module: the result, the state and
    the log it ends with. *)
Lemma loop_threads (names : list string) (ms : list AppModule.t) (acc : S) (w : World) :
  resolved mm names ms ->
  range names (via_module mm f ev combine) acc w
  = (Ok (folded combine acc names (hooks names ms (store w)).1),
     {| store := (hooks names ms (store w)).2;
        calls := calls w ++ events names ms (hooks names ms (store w)).1 |}).
Proof.
  intros Hres; revert acc w; induction Hres as [|n m names ms Hn _ IH]; intros acc w.
  - destruct w; cbn. by rewrite app_nil_r.
  - cbn [range]. unfold bind. rewrite (via_module_call mm f ev combine n m) by done.
    rewrite IH. cbn. by rewrite <- app_assoc.
Qed.

(** The loop that meets a name without a module after names that have
    one: the panic, with the state and the log as the hooks that ran left
    them. *)
Lemma loop_panics_threads (pre post : list string) (n : string)
      (ms : list AppModule.t) (acc : S) (w : World) :
  resolved mm pre ms ->
  ModuleManager.Modules mm !! n = None ->
  range (pre ++ n :: post) (via_module mm f ev combine) acc w
  = (Panic NilPointerDereference,
     {| store := (hooks pre ms (store w)).2;
        calls := calls w ++ events pre ms (hooks pre ms (store w)).1 |}).
Proof.
  intros Hres Hn. rewrite range_app. unfold bind at 1. rewrite (loop_threads pre ms) by done.
  cbn [range]. unfold bind. by rewrite (via_module_nil mm f ev combine).
Qed.
End loops.

(** When the hook does not look at the name, the names drop out. *)
Lemma hooks_without_names {R} (F : AppModule.t -> Ctx -> R * Ctx)
      (names : list string) (ms : list AppModule.t) (ctx : Ctx) :
  length names = length ms ->
  run_hooks (fun nm : string * AppModule.t => F nm.2) (zip names ms) ctx
  = run_hooks F ms ctx.
Proof.
  intros Hlen. rewrite (run_hooks_fmap snd F), snd_zip; [done|lia].
Qed.

Lemma events_without_names {R} (E : AppModule.t -> R -> Event)
      (names : list string) (ms : list AppModule.t) (rs : list R) :
  length names = length ms ->
  zip_with (fun (nm : string * AppModule.t) r => E nm.2 r) (zip names ms) rs
  = zip_with E ms rs.
Proof.
  intros Hlen. rewrite <- (zip_with_fmap_l _ snd), snd_zip; [done|lia].
Qed.

Variable mm : ModuleManager.t.

(** X4. When the begin-block ordering lists the names of the modules [ms],
    [BeginBlock] runs the hooks of [ms] in that order, each on the chain
    state the one before it left; it returns their tags put one after the
    other, leaves the state as the last hook left it, and has made exactly
    these calls. *)
Theorem BeginBlock_threads_the_state (req : RequestBeginBlock) (ctx : Ctx)
        (ms : list AppModule.t) :
  resolved mm (ModuleManager.OrderBeginBlockers mm) ms ->
  let out := run_hooks (fun m c => AppModule.BeginBlock m c req) ms ctx in
  exec (ModuleManager.BeginBlock mm req) ctx
  = (Ok {| abci.ResponseBeginBlock.Tags := concat out.1 |},
     {| store := out.2;
        calls := zip_with (fun m r => EvBeginBlock m req r) ms out.1 |}).
Proof.
  intros Hres out. pose proof (resolved_length _ _ _ Hres) as Hlen.
  unfold exec, ModuleManager.BeginBlock, bind.
  rewrite BeginBlock_body_via, (loop_threads mm _ _ _ _ ms) by done.
  cbn [store calls app].
  rewrite (hooks_without_names (fun m c => AppModule.BeginBlock m c req)) by done.
  rewrite (events_without_names (fun m r => EvBeginBlock m req r)) by done.
  fold out.
  rewrite folded_ignoring_names by (unfold out; by rewrite run_hooks_length).
  by rewrite foldl_AppendTags.
Qed.

(** X5. When the end-block ordering lists the names of the modules [ms],
    [EndBlock] runs the hooks of [ms] in that order, each on the chain state
    the one before it left; it returns the last non-empty update list and
    the tags put one after the other, leaves the state as the last hook left
    it, and has made exactly these calls. *)
Theorem EndBlock_threads_the_state (req : RequestEndBlock) (ctx : Ctx)
        (ms : list AppModule.t) :
  resolved mm (ModuleManager.OrderEndBlockers mm) ms ->
  let out := run_hooks (fun m c => AppModule.EndBlock m c req) ms ctx in
  exec (ModuleManager.EndBlock mm req) ctx
  = (Ok {| abci.ResponseEndBlock.ValidatorUpdates := last_non_empty out.1.*1;
           abci.ResponseEndBlock.Tags := concat out.1.*2 |},
     {| store := out.2;
        calls := zip_with (fun m r => EvEndBlock m req r) ms out.1 |}).
Proof.
  intros Hres out. pose proof (resolved_length _ _ _ Hres) as Hlen.
  unfold exec, ModuleManager.EndBlock, bind.
  rewrite (range_ext _ _ _ _ _ (EndBlock_body_via mm req)).
  rewrite (loop_threads mm _ _ _ _ ms) by done.
  cbn [store calls app].
  rewrite (hooks_without_names (fun m c => AppModule.EndBlock m c req)) by done.
  rewrite (events_without_names (fun m r => EvEndBlock m req r)) by done.
  fold out.
  rewrite folded_ignoring_names by (unfold out; by rewrite run_hooks_length).
  by rewrite foldl_EndBlock, foldl_keep_or_replace, foldl_AppendTags.
Qed.

(** X6. When the names of the init order that have a non-nil genesis entry
    are those of the modules [ms], [InitGenesis] runs the hooks of [ms] in
    that order, each with the entry of its name and on the chain state the
    one before it left; it returns the last non-empty update list, leaves
    the state as the last hook left it, and has made exactly these calls. *)
Theorem InitGenesis_threads_the_state (genesisData : gmap string RawMessage)
        (ctx : Ctx) (ms : list AppModule.t) :
  let names := with_genesis genesisData (ModuleManager.OrderInitGenesis mm) in
  resolved mm names ms ->
  let out := run_hooks (fun (nm : string * AppModule.t) c =>
                          AppModule.InitGenesis nm.2 c (index genesisData nm.1))
                       (zip names ms) ctx in
  exec (ModuleManager.InitGenesis mm genesisData) ctx
  = (Ok {| abci.ResponseInitChain.Validators := last_non_empty out.1 |},
     {| store := out.2;
        calls := zip_with (fun (nm : string * AppModule.t) r =>
                             EvInitGenesis nm.2 (index genesisData nm.1) r)
                          (zip names ms) out.1 |}).
Proof.
  intros names Hres out. pose proof (resolved_length _ _ _ Hres) as Hlen.
  unfold exec, ModuleManager.InitGenesis, bind.
  rewrite InitGenesis_loop_via. fold names.
  rewrite (loop_threads mm _ _ _ _ ms) by done.
  cbn [store calls app]. fold out.
  rewrite folded_ignoring_names
    by (unfold out; rewrite run_hooks_length, length_zip_with; lia).
  by rewrite foldl_keep_or_replace.
Qed.

(** X7. When the export ordering lists the names of the modules [ms],
    [ExportGenesis] runs the export hooks of [ms] in that order, each on the
    chain state the one before it left.  The map it returns has an entry
    for every name of the ordering and for no other name, and the entry of a
    name is the payload of the last call made for it. *)
Theorem ExportGenesis_threads_the_state (ctx : Ctx) (ms : list AppModule.t) :
  resolved mm (ModuleManager.OrderExportGenesis mm) ms ->
  let out := run_hooks AppModule.ExportGenesis ms ctx in
  exists genesisData,
    exec (ModuleManager.ExportGenesis mm) ctx
    = (Ok genesisData,
       {| store := out.2;
          calls := zip_with (fun m r => EvExportGenesis m r) ms out.1 |})
    /\ (forall n,
           genesisData !! n
           = snd <$> last (filter (fun p => p.1 = n)
                                  (zip (ModuleManager.OrderExportGenesis mm) out.1)))
    /\ dom genesisData = list_to_set (ModuleManager.OrderExportGenesis mm).
Proof.
  intros Hres out. pose proof (resolved_length _ _ _ Hres) as Hlen.
  assert (Hout : length out.1 = length ms) by (unfold out; by rewrite run_hooks_length).
  eexists. split; [|split].
  - unfold exec, ModuleManager.ExportGenesis.
    rewrite ExportGenesis_body_via, (loop_threads mm _ _ _ _ ms) by done.
    cbn [store calls app].
    rewrite (hooks_without_names AppModule.ExportGenesis) by done.
    rewrite (events_without_names (fun m r => EvExportGenesis m r)) by done.
    reflexivity.
  - intros n. unfold folded. fold out.
    rewrite (foldl_insert_last fst snd). by destruct (last _).
  - unfold folded. fold out.
    rewrite (foldl_insert_dom fst snd), fst_zip; [done|lia].
Qed.

(** X8. A lifecycle call that panics on a name without a module undoes
    nothing: the chain state is the one the hooks of the names before it
    left, and the log holds their calls. *)
Theorem panic_keeps_the_state_so_far (n : string) :
  ModuleManager.Modules mm !! n = None ->
  (forall req ctx pre post ms,
      ModuleManager.OrderBeginBlockers mm = pre ++ n :: post ->
      resolved mm pre ms ->
      let out := run_hooks (fun m c => AppModule.BeginBlock m c req) ms ctx in
      exec (ModuleManager.BeginBlock mm req) ctx
      = (Panic NilPointerDereference,
         {| store := out.2;
            calls := zip_with (fun m r => EvBeginBlock m req r) ms out.1 |}))
  /\ (forall req ctx pre post ms,
         ModuleManager.OrderEndBlockers mm = pre ++ n :: post ->
         resolved mm pre ms ->
         let out := run_hooks (fun m c => AppModule.EndBlock m c req) ms ctx in
         exec (ModuleManager.EndBlock mm req) ctx
         = (Panic NilPointerDereference,
            {| store := out.2;
               calls := zip_with (fun m r => EvEndBlock m req r) ms out.1 |}))
  /\ (forall ctx pre post ms,
         ModuleManager.OrderExportGenesis mm = pre ++ n :: post ->
         resolved mm pre ms ->
         let out := run_hooks AppModule.ExportGenesis ms ctx in
         exec (ModuleManager.ExportGenesis mm) ctx
         = (Panic NilPointerDereference,
            {| store := out.2;
               calls := zip_with (fun m r => EvExportGenesis m r) ms out.1 |})).
Proof.
  intros Hn. split; [|split].
  - intros req ctx pre post ms Horder Hres out.
    pose proof (resolved_length _ _ _ Hres) as Hlen.
    unfold exec, ModuleManager.BeginBlock, bind.
    rewrite BeginBlock_body_via, Horder, (loop_panics_threads mm _ _ _ _ _ _ ms) by done.
    cbn [store calls app].
    rewrite (hooks_without_names (fun m c => AppModule.BeginBlock m c req)) by done.
    by rewrite (events_without_names (fun m r => EvBeginBlock m req r)).
  - intros req ctx pre post ms Horder Hres out.
    pose proof (resolved_length _ _ _ Hres) as Hlen.
    unfold exec, ModuleManager.EndBlock, bind.
    rewrite (range_ext _ _ _ _ _ (EndBlock_body_via mm req)), Horder.
    rewrite (loop_panics_threads mm _ _ _ _ _ _ ms) by done.
    cbn [store calls app].
    rewrite (hooks_without_names (fun m c => AppModule.EndBlock m c req)) by done.
    by rewrite (events_without_names (fun m r => EvEndBlock m req r)).
  - intros ctx pre post ms Horder Hres out.
    pose proof (resolved_length _ _ _ Hres) as Hlen.
    unfold exec, ModuleManager.ExportGenesis.
    rewrite ExportGenesis_body_via, Horder.
    rewrite (loop_panics_threads mm _ _ _ _ _ _ ms) by done.
    cbn [store calls app].
    rewrite (hooks_without_names AppModule.ExportGenesis) by done.
    by rewrite (events_without_names (fun m r => EvExportGenesis m r)).
Qed.
End threading.

(** ** The lifecycle calls as runs of the modules' hooks *)
Section runs.
Context `{Env}.

Lemma run_hooks_app {A R} (f : A -> Ctx -> R * Ctx) (xs ys : list A) (ctx : Ctx) :
  run_hooks f (xs ++ ys) ctx
  = ((run_hooks f xs ctx).1 ++ (run_hooks f ys (run_hooks f xs ctx).2).1,
     (run_hooks f ys (run_hooks f xs ctx).2).2).
Proof.
  revert ctx; induction xs as [|x xs IH]; intros ctx; cbn.
  - by destruct (run_hooks f ys ctx).
  - by rewrite IH.
Qed.

Lemma resolved_app (mm : ModuleManager.t) (names1 names2 : list string)
      (ms1 ms2 : list AppModule.t) :
  resolved mm names1 ms1 -> resolved mm names2 ms2 ->
  resolved mm (names1 ++ names2) (ms1 ++ ms2).
Proof. apply Forall2_app. Qed.

(** The names with a non-nil entry, paired with their modules. *)
Lemma resolved_with_genesis (mm : ModuleManager.t) (genesisData : gmap string RawMessage)
      (names : list string) (ms : list AppModule.t) :
  resolved mm names ms ->
  let entries := filter (fun nm : string * AppModule.t => is_Some (index genesisData nm.1))
                        (zip names ms) in
  with_genesis genesisData names = entries.*1
  /\ resolved mm entries.*1 entries.*2.
Proof.
  cbv zeta. unfold with_genesis.
  induction 1 as [|n m names ms Hn _ [IH1 IH2]]; [by split; [|constructor]|].
  cbn [zip zip_with]. rewrite !filter_cons. cbn [fst].
  case_decide; cbn [fmap list_fmap fst snd]; [|done].
  split; [by rewrite IH1|]. by constructor.
Qed.

Variable mm : ModuleManager.t.

Lemma BeginBlock_run (req : RequestBeginBlock) (ctx : Ctx) (ms : list AppModule.t) :
  resolved mm (ModuleManager.OrderBeginBlockers mm) ms ->
  exec (ModuleManager.BeginBlock mm req) ctx
  = (Ok {| abci.ResponseBeginBlock.Tags :=
             concat (run_hooks (fun m c => AppModule.BeginBlock m c req) ms ctx).1 |},
     {| store := (run_hooks (fun m c => AppModule.BeginBlock m c req) ms ctx).2;
        calls := zip_with (fun m r => EvBeginBlock m req r) ms
                          (run_hooks (fun m c => AppModule.BeginBlock m c req) ms ctx).1 |}).
Proof.
  intros Hres. pose proof (resolved_length _ _ _ Hres) as Hlen.
  unfold exec, ModuleManager.BeginBlock, bind.
  rewrite BeginBlock_body_via, (loop_threads mm _ _ _ _ ms) by done.
  cbn [store calls app].
  rewrite (hooks_without_names (fun m c => AppModule.BeginBlock m c req)) by done.
  rewrite (events_without_names (fun m r => EvBeginBlock m req r)) by done.
  rewrite folded_ignoring_names by by rewrite run_hooks_length.
  by rewrite foldl_AppendTags.
Qed.

Lemma EndBlock_run (req : RequestEndBlock) (ctx : Ctx) (ms : list AppModule.t) :
  resolved mm (ModuleManager.OrderEndBlockers mm) ms ->
  exec (ModuleManager.EndBlock mm req) ctx
  = (Ok {| abci.ResponseEndBlock.ValidatorUpdates :=
             last_non_empty
               (run_hooks (fun m c => AppModule.EndBlock m c req) ms ctx).1.*1;
           abci.ResponseEndBlock.Tags :=
             concat (run_hooks (fun m c => AppModule.EndBlock m c req) ms ctx).1.*2 |},
     {| store := (run_hooks (fun m c => AppModule.EndBlock m c req) ms ctx).2;
        calls := zip_with (fun m r => EvEndBlock m req r) ms
                          (run_hooks (fun m c => AppModule.EndBlock m c req) ms ctx).1 |}).
Proof.
  intros Hres. pose proof (resolved_length _ _ _ Hres) as Hlen.
  unfold exec, ModuleManager.EndBlock, bind.
  rewrite (range_ext _ _ _ _ _ (EndBlock_body_via mm req)).
  rewrite (loop_threads mm _ _ _ _ ms) by done.
  cbn [store calls app].
  rewrite (hooks_without_names (fun m c => AppModule.EndBlock m c req)) by done.
  rewrite (events_without_names (fun m r => EvEndBlock m req r)) by done.
  rewrite folded_ignoring_names by by rewrite run_hooks_length.
  by rewrite foldl_EndBlock, foldl_keep_or_replace, foldl_AppendTags.
Qed.

Local Abbreviation init_hook genesisData :=
  (fun (nm : string * AppModule.t) c =>
     AppModule.InitGenesis nm.2 c (index genesisData nm.1)).
Local Abbreviation init_event genesisData :=
  (fun (nm : string * AppModule.t) r => EvInitGenesis nm.2 (index genesisData nm.1) r).

Lemma InitGenesis_run (genesisData : gmap string RawMessage) (ctx : Ctx)
      (ms : list AppModule.t) :
  resolved mm (with_genesis genesisData (ModuleManager.OrderInitGenesis mm)) ms ->
  exec (ModuleManager.InitGenesis mm genesisData) ctx
  = (Ok {| abci.ResponseInitChain.Validators :=
             last_non_empty
               (run_hooks (init_hook genesisData)
                          (zip (with_genesis genesisData (ModuleManager.OrderInitGenesis mm)) ms)
                          ctx).1 |},
     {| store :=
          (run_hooks (init_hook genesisData)
                     (zip (with_genesis genesisData (ModuleManager.OrderInitGenesis mm)) ms)
                     ctx).2;
        calls :=
          zip_with (init_event genesisData)
                   (zip (with_genesis genesisData (ModuleManager.OrderInitGenesis mm)) ms)
                   (run_hooks (init_hook genesisData)
                              (zip (with_genesis genesisData
                                                 (ModuleManager.OrderInitGenesis mm)) ms)
                              ctx).1 |}).
Proof.
  intros Hres. pose proof (resolved_length _ _ _ Hres) as Hlen.
  unfold exec, ModuleManager.InitGenesis, bind.
  rewrite InitGenesis_loop_via, (loop_threads mm _ _ _ _ ms) by done.
  cbn [store calls app].
  rewrite folded_ignoring_names by (rewrite run_hooks_length, length_zip_with; lia).
  by rewrite foldl_keep_or_replace.
Qed.

Lemma InitGenesis_panics_run (genesisData : gmap string RawMessage) (ctx : Ctx)
      (pre post : list string) (n : string) (ms : list AppModule.t) :
  with_genesis genesisData (ModuleManager.OrderInitGenesis mm) = pre ++ n :: post ->
  resolved mm pre ms ->
  ModuleManager.Modules mm !! n = None ->
  exec (ModuleManager.InitGenesis mm genesisData) ctx
  = (Panic NilPointerDereference,
     {| store := (run_hooks (init_hook genesisData) (zip pre ms) ctx).2;
        calls := zip_with (init_event genesisData) (zip pre ms)
                          (run_hooks (init_hook genesisData) (zip pre ms) ctx).1 |}).
Proof.
  intros Hnames Hres Hn. unfold exec, ModuleManager.InitGenesis, bind.
  rewrite InitGenesis_loop_via, Hnames.
  by rewrite (loop_panics_threads mm _ _ _ _ _ _ ms).
Qed.

Lemma ExportGenesis_run (ctx : Ctx) (ms : list AppModule.t) :
  resolved mm (ModuleManager.OrderExportGenesis mm) ms ->
  exists genesisData,
    exec (ModuleManager.ExportGenesis mm) ctx
    = (Ok genesisData,
       {| store := (run_hooks AppModule.ExportGenesis ms ctx).2;
          calls := zip_with (fun m r => EvExportGenesis m r) ms
                            (run_hooks AppModule.ExportGenesis ms ctx).1 |})
    /\ (forall n,
           genesisData !! n
           = snd <$> last (filter (fun p => p.1 = n)
                                  (zip (ModuleManager.OrderExportGenesis mm)
                                       (run_hooks AppModule.ExportGenesis ms ctx).1)))
    /\ dom genesisData = list_to_set (ModuleManager.OrderExportGenesis mm).
Proof.
  intros Hres. pose proof (resolved_length _ _ _ Hres) as Hlen.
  assert (Hout : length (run_hooks AppModule.ExportGenesis ms ctx).1 = length ms)
    by by rewrite run_hooks_length.
  eexists. split; [|split].
  - unfold exec, ModuleManager.ExportGenesis.
    rewrite ExportGenesis_body_via, (loop_threads mm _ _ _ _ ms) by done.
    cbn [store calls app].
    rewrite (hooks_without_names AppModule.ExportGenesis) by done.
    rewrite (events_without_names (fun m r => EvExportGenesis m r)) by done.
    reflexivity.
  - intros n. unfold folded.
    rewrite (foldl_insert_last fst snd). by destruct (last _).
  - unfold folded.
    rewrite (foldl_insert_dom fst snd), fst_zip; [done|lia].
Qed.
End runs.

(** ** The constructed manager *)
Section constructed.
Context `{Env}.

(** X9. The map of a constructed manager holds, under a name, the last
    module of the list that goes by it; so every module in the map is a
    module of the list stored under its own name, and the names in the map
    are exactly the names of the modules of the list. *)
Theorem NewModuleManager_map (modules : list AppModule.t) :
  let mm := ModuleManager.NewModuleManager modules in
  (forall n, ModuleManager.Modules mm !! n = last_named n modules)
  /\ (forall k m, ModuleManager.Modules mm !! k = Some m ->
                  AppModule.Name m = k /\ m ∈ modules)
  /\ dom (ModuleManager.Modules mm) = list_to_set (AppModule.Name <$> modules).
Proof.
  cbv zeta. split; [|split].
  - intros n. apply NewModuleManager_lookup.
  - intros k m Hk. split; [by eapply NewModuleManager_keyed_by_name|].
    rewrite NewModuleManager_lookup, last_lookup in Hk.
    apply list_elem_of_lookup_2 in Hk. by apply list_elem_of_filter in Hk as [_ ?].
  - rewrite NewModuleManager_unfold. cbn.
    apply (foldl_insert_dom AppModule.Name (fun m => m)).
Qed.

Lemma NewModuleManager_resolved (modules : list AppModule.t) :
  NoDup (AppModule.Name <$> modules) ->
  resolved (ModuleManager.NewModuleManager modules) (AppModule.Name <$> modules) modules.
Proof.
  intros Hnd. unfold resolved. rewrite Forall2_fmap_l.
  apply Forall_Forall2_diag, Forall_forall. intros m Hm. unfold compose.
  rewrite NewModuleManager_lookup. by apply (last_filter_NoDup AppModule.Name).
Qed.

(** X10. In a manager constructed from modules of distinct names, every
    module is in the map under its own name, and [BeginBlock], [EndBlock]
    and [ExportGenesis] each run the hook of every module of the list
    exactly once, in the order of the list, each on the chain state the
    hook before it left. *)
Theorem NewModuleManager_distinct_names (modules : list AppModule.t) :
  NoDup (AppModule.Name <$> modules) ->
  let mm := ModuleManager.NewModuleManager modules in
  (forall m, m ∈ modules -> ModuleManager.Modules mm !! AppModule.Name m = Some m)
  /\ (forall req ctx,
         let out := run_hooks (fun m c => AppModule.BeginBlock m c req) modules ctx in
         exec (ModuleManager.BeginBlock mm req) ctx
         = (Ok {| abci.ResponseBeginBlock.Tags := concat out.1 |},
            {| store := out.2;
               calls := zip_with (fun m r => EvBeginBlock m req r) modules out.1 |}))
  /\ (forall req ctx,
         let out := run_hooks (fun m c => AppModule.EndBlock m c req) modules ctx in
         exec (ModuleManager.EndBlock mm req) ctx
         = (Ok {| abci.ResponseEndBlock.ValidatorUpdates := last_non_empty out.1.*1;
                  abci.ResponseEndBlock.Tags := concat out.1.*2 |},
            {| store := out.2;
               calls := zip_with (fun m r => EvEndBlock m req r) modules out.1 |}))
  /\ (forall ctx,
         let out := run_hooks AppModule.ExportGenesis modules ctx in
         exists genesisData,
           exec (ModuleManager.ExportGenesis mm) ctx
           = (Ok genesisData,
              {| store := out.2;
                 calls := zip_with (fun m r => EvExportGenesis m r) modules out.1 |})
           /\ (forall k, genesisData !! k
                         = snd <$> last (filter (fun p => p.1 = k)
                                                (zip (AppModule.Name <$> modules) out.1)))
           /\ dom genesisData = list_to_set (AppModule.Name <$> modules)).
Proof.
  intros Hnd mm.
  pose proof (NewModuleManager_resolved modules Hnd) as Hres. fold mm in Hres.
  assert (Horders : ModuleManager.OrderExportGenesis mm = AppModule.Name <$> modules
                    /\ ModuleManager.OrderBeginBlockers mm = AppModule.Name <$> modules
                    /\ ModuleManager.OrderEndBlockers mm = AppModule.Name <$> modules)
    by (unfold mm; by rewrite NewModuleManager_unfold).
  destruct Horders as (He & Hb & Hen).
  split; [|split; [|split]].
  - intros m Hm. unfold mm. rewrite NewModuleManager_lookup.
    by apply (last_filter_NoDup AppModule.Name).
  - intros req ctx out. apply BeginBlock_run. by rewrite Hb.
  - intros req ctx out. apply EndBlock_run. by rewrite Hen.
  - intros ctx out.
    destruct (ExportGenesis_run mm ctx modules) as (g & Hrun & Hlookup & Hdom);
      [by rewrite He|].
    exists g. split; [done|]. split.
    + intros k. by rewrite Hlookup, He.
    + by rewrite Hdom, He.
Qed.
End constructed.

(** ** Export, then initialise again *)
Section reinit.
Context `{Env}.

Lemma ExportGenesis_Ok_registered (mm : ModuleManager.t) (ctx : Ctx)
      (genesisData : gmap string RawMessage) (w : World) :
  exec (ModuleManager.ExportGenesis mm) ctx = (Ok genesisData, w) ->
  registered mm (ModuleManager.OrderExportGenesis mm).
Proof.
  intros Hrun.
  destruct (first_missing mm (ModuleManager.OrderExportGenesis mm))
    as [Hreg|(pre & n & post & Horder & Hpre & Hn)]; [done|].
  destruct (ExportGenesis_panics mm ctx pre post n Horder Hpre Hn) as (w' & Hpanic & _).
  rewrite Hpanic in Hrun. discriminate.
Qed.

Lemma ExportGenesis_keys (mm : ModuleManager.t) (ctx : Ctx)
      (genesisData : gmap string RawMessage) (w : World) (n : string) :
  exec (ModuleManager.ExportGenesis mm) ctx = (Ok genesisData, w) ->
  is_Some (genesisData !! n) ->
  n ∈ ModuleManager.OrderExportGenesis mm.
Proof.
  intros Hrun Hn. pose proof (ExportGenesis_Ok_registered _ _ _ _ Hrun) as Hreg.
  destruct (ExportGenesis_returns mm ctx Hreg) as (w' & Hrun' & _).
  rewrite Hrun' in Hrun. injection Hrun as <- _.
  unfold folded in Hn. rewrite (foldl_insert_last fst snd) in Hn.
  destruct (last _) as [p|] eqn:Hlast; [|by rewrite lookup_empty in Hn; destruct Hn].
  rewrite last_lookup in Hlast. apply list_elem_of_lookup_2 in Hlast.
  apply list_elem_of_filter in Hlast as [<- Hp]. destruct p as [k bz].
  by apply elem_of_zip_l in Hp.
Qed.

(** X11. Genesis data that [ExportGenesis] returned has no entry for a name
    outside the export ordering.  So an [InitGenesis] on it, by any manager,
    only calls modules under names that were exported: a name of the init
    order that was not in the export ordering is passed over. *)
Theorem InitGenesis_of_exported (mm mm' : ModuleManager.t) (ctx ctx' : Ctx)
        (genesisData : gmap string RawMessage) (w : World) :
  exec (ModuleManager.ExportGenesis mm) ctx = (Ok genesisData, w) ->
  (forall n, n ∉ ModuleManager.OrderExportGenesis mm -> index genesisData n = None)
  /\ Forall (fun e => exists n m,
                 n ∈ ModuleManager.OrderInitGenesis mm'
                 /\ n ∈ ModuleManager.OrderExportGenesis mm
                 /\ ModuleManager.Modules mm' !! n = Some m
                 /\ exists r, e = EvInitGenesis m (index genesisData n) r)
            (calls (exec (ModuleManager.InitGenesis mm' genesisData) ctx').2).
Proof.
  intros Hrun.
  assert (Hkeys : forall n, is_Some (index genesisData n) ->
                            n ∈ ModuleManager.OrderExportGenesis mm).
  { intros n Hn. eapply ExportGenesis_keys; [exact Hrun|].
    unfold index in Hn. destruct (genesisData !! n); [by eexists|by destruct Hn]. }
  split.
  - intros n Hn. destruct (index genesisData n) eqn:Hidx; [|done].
    destruct Hn. apply Hkeys. by eexists.
  - eapply Forall_impl; [apply InitGenesis_calls_listed|].
    intros e (n & m & Hn & Hm & He). exists n, m.
    apply list_elem_of_filter in Hn as [Hentry Hn]. repeat split; [done|by apply Hkeys|done|done].
Qed.

(** X12. When no name of the init order has a non-nil entry in the genesis
    map, as with the empty map, [InitGenesis] calls nothing, leaves the
    chain state alone and returns no validator update; it does not panic
    even when the names have no module. *)
Theorem InitGenesis_without_entries (mm : ModuleManager.t)
        (genesisData : gmap string RawMessage) (ctx : Ctx) :
  (Forall (fun n => index genesisData n = None) (ModuleManager.OrderInitGenesis mm) ->
   exec (ModuleManager.InitGenesis mm genesisData) ctx
   = (Ok {| abci.ResponseInitChain.Validators := [] |}, {| store := ctx; calls := [] |}))
  /\ exec (ModuleManager.InitGenesis mm ∅) ctx
     = (Ok {| abci.ResponseInitChain.Validators := [] |}, {| store := ctx; calls := [] |}).
Proof.
  assert (Hgen : forall g,
             Forall (fun n => index g n = None) (ModuleManager.OrderInitGenesis mm) ->
             exec (ModuleManager.InitGenesis mm g) ctx
             = (Ok {| abci.ResponseInitChain.Validators := [] |},
                {| store := ctx; calls := [] |})).
  { intros g Hnone. unfold exec, ModuleManager.InitGenesis, bind.
    rewrite InitGenesis_loop_via. unfold with_genesis.
    rewrite filter_none; [done|].
    eapply Forall_impl; [exact Hnone|]. intros n -> [? ?]. done. }
  split; [apply Hgen|]. apply Hgen, Forall_forall. intros n _.
  unfold index. by rewrite lookup_empty.
Qed.
End reinit.

(** ** The setters and the other calls *)
Section setters.
Context `{Env}.

(** X13. Setting one ordering changes nothing in what the lifecycle calls
    of the other three orderings do, nor in the entries that route
    registration visits. *)
Theorem setters_leave_other_calls (mm : ModuleManager.t) (names : list string) :
  (forall genesisData breq ereq ctx visit,
      let mm' := ModuleManager.SetOrderInitGenesis mm names in
      exec (ModuleManager.ExportGenesis mm') ctx = exec (ModuleManager.ExportGenesis mm) ctx
      /\ exec (ModuleManager.BeginBlock mm' breq) ctx
         = exec (ModuleManager.BeginBlock mm breq) ctx
      /\ exec (ModuleManager.EndBlock mm' ereq) ctx
         = exec (ModuleManager.EndBlock mm ereq) ctx
      /\ ModuleManager.map_range mm' visit = ModuleManager.map_range mm visit
      /\ exec (ModuleManager.InitGenesis
                 (ModuleManager.SetOrderExportGenesis mm names) genesisData) ctx
         = exec (ModuleManager.InitGenesis mm genesisData) ctx)
  /\ (forall genesisData breq ereq ctx visit,
         let mm' := ModuleManager.SetOrderExportGenesis mm names in
         exec (ModuleManager.InitGenesis mm' genesisData) ctx
         = exec (ModuleManager.InitGenesis mm genesisData) ctx
         /\ exec (ModuleManager.BeginBlock mm' breq) ctx
            = exec (ModuleManager.BeginBlock mm breq) ctx
         /\ exec (ModuleManager.EndBlock mm' ereq) ctx
            = exec (ModuleManager.EndBlock mm ereq) ctx
         /\ ModuleManager.map_range mm' visit = ModuleManager.map_range mm visit)
  /\ (forall genesisData breq ereq ctx visit,
         let mm' := ModuleManager.SetOrderBeginBlockers mm names in
         exec (ModuleManager.InitGenesis mm' genesisData) ctx
         = exec (ModuleManager.InitGenesis mm genesisData) ctx
         /\ exec (ModuleManager.ExportGenesis mm') ctx
            = exec (ModuleManager.ExportGenesis mm) ctx
         /\ exec (ModuleManager.EndBlock mm' ereq) ctx
            = exec (ModuleManager.EndBlock mm ereq) ctx
         /\ ModuleManager.map_range mm' visit = ModuleManager.map_range mm visit
         /\ exec (ModuleManager.BeginBlock
                    (ModuleManager.SetOrderExportGenesis mm names) breq) ctx
            = exec (ModuleManager.BeginBlock mm breq) ctx)
  /\ (forall genesisData breq ereq ctx visit,
         let mm' := ModuleManager.SetOrderEndBlockers mm names in
         exec (ModuleManager.InitGenesis mm' genesisData) ctx
         = exec (ModuleManager.InitGenesis mm genesisData) ctx
         /\ exec (ModuleManager.ExportGenesis mm') ctx
            = exec (ModuleManager.ExportGenesis mm) ctx
         /\ exec (ModuleManager.BeginBlock mm' breq) ctx
            = exec (ModuleManager.BeginBlock mm breq) ctx
         /\ ModuleManager.map_range mm' visit = ModuleManager.map_range mm visit
         /\ exec (ModuleManager.EndBlock
                    (ModuleManager.SetOrderExportGenesis mm names) ereq) ctx
            = exec (ModuleManager.EndBlock mm ereq) ctx).
Proof. repeat split. Qed.

(** X14. Of two calls of one setter the later one counts, and calls of
    different setters can be made in either order. *)
Theorem setters_compose (mm : ModuleManager.t) (a b : list string) :
  (ModuleManager.SetOrderInitGenesis (ModuleManager.SetOrderInitGenesis mm a) b
   = ModuleManager.SetOrderInitGenesis mm b
   /\ ModuleManager.SetOrderExportGenesis (ModuleManager.SetOrderExportGenesis mm a) b
      = ModuleManager.SetOrderExportGenesis mm b
   /\ ModuleManager.SetOrderBeginBlockers (ModuleManager.SetOrderBeginBlockers mm a) b
      = ModuleManager.SetOrderBeginBlockers mm b
   /\ ModuleManager.SetOrderEndBlockers (ModuleManager.SetOrderEndBlockers mm a) b
      = ModuleManager.SetOrderEndBlockers mm b)
  /\ (ModuleManager.SetOrderInitGenesis (ModuleManager.SetOrderExportGenesis mm a) b
      = ModuleManager.SetOrderExportGenesis (ModuleManager.SetOrderInitGenesis mm b) a
      /\ ModuleManager.SetOrderInitGenesis (ModuleManager.SetOrderBeginBlockers mm a) b
         = ModuleManager.SetOrderBeginBlockers (ModuleManager.SetOrderInitGenesis mm b) a
      /\ ModuleManager.SetOrderInitGenesis (ModuleManager.SetOrderEndBlockers mm a) b
         = ModuleManager.SetOrderEndBlockers (ModuleManager.SetOrderInitGenesis mm b) a
      /\ ModuleManager.SetOrderExportGenesis (ModuleManager.SetOrderBeginBlockers mm a) b
         = ModuleManager.SetOrderBeginBlockers (ModuleManager.SetOrderExportGenesis mm b) a
      /\ ModuleManager.SetOrderExportGenesis (ModuleManager.SetOrderEndBlockers mm a) b
         = ModuleManager.SetOrderEndBlockers (ModuleManager.SetOrderExportGenesis mm b) a
      /\ ModuleManager.SetOrderBeginBlockers (ModuleManager.SetOrderEndBlockers mm a) b
         = ModuleManager.SetOrderEndBlockers (ModuleManager.SetOrderBeginBlockers mm b) a).
Proof. repeat split. Qed.
End setters.

(** ** Route registration on a constructed manager *)
Section constructed_routes.
Context `{Env}.

Lemma filter_fmap {A B} (g : A -> B) (P : B -> Prop) `{forall y, Decision (P y)}
      (l : list A) :
  filter P (g <$> l) = g <$> filter (fun x => P (g x)) l.
Proof.
  induction l as [|x l IH]; [done|].
  cbn [fmap list_fmap]. rewrite !filter_cons, IH. by case_decide.
Qed.

(** X15. On a manager constructed from modules of distinct names, route
    registration registers, one for one, the routes of the modules of the
    list that have a non-empty route, each with the handler of its module,
    and likewise their querier routes. *)
Theorem RegisterRoutes_of_constructed (modules : list AppModule.t)
        (visit : list (string * AppModule.t)) (ctx : Ctx) :
  NoDup (AppModule.Name <$> modules) ->
  ModuleManager.map_range (ModuleManager.NewModuleManager modules) visit ->
  let log := calls (exec (ModuleManager.RegisterRoutes visit) ctx).2 in
  router_routes log
  ≡ₚ (fun m => (AppModule.Route m, AppModule.NewHandler m))
       <$> filter (fun m => AppModule.Route m ≠ "") modules
  /\ query_routes log
     ≡ₚ (fun m => (AppModule.QuerierRoute m, AppModule.NewQuerierHandler m))
          <$> filter (fun m => AppModule.QuerierRoute m ≠ "") modules.
Proof.
  intros Hnd Hvisit log. unfold ModuleManager.map_range in Hvisit.
  rewrite NewModuleManager_unfold in Hvisit. cbn in Hvisit.
  rewrite (store_all_NoDup AppModule.Name (fun m => m) modules Hnd) in Hvisit.
  unfold log, exec. rewrite RegisterRoutes_run. cbn [snd log_after calls app].
  rewrite router_routes_route_calls, query_routes_route_calls, Hvisit.
  rewrite !filter_fmap, <- !list_fmap_compose. done.
Qed.

End constructed_routes.

(** ** The client commands *)
Section commands.
Context `{Env} {Command : Type}.
Variable AddCommand : Command -> Command -> Command.

(** X17. [AddTxCommands] adds to the root command the tx commands of the
    modules that have one, in registration order, and nothing for a module
    whose getter returns nil; [AddQueryCommands] does the same with the
    query commands.  A registry without commands leaves the root as it is. *)
Theorem AddCommands_skip_nil (mbm : list (Client.t (Command := Command)))
        (root : Command) :
  Client.AddTxCommands AddCommand mbm root
  = foldl AddCommand root (omap Client.GetTxCmd mbm)
  /\ Client.AddQueryCommands AddCommand mbm root
     = foldl AddCommand root (omap Client.GetQueryCmd mbm)
  /\ (Forall (fun mb => Client.GetTxCmd mb = None) mbm ->
      Client.AddTxCommands AddCommand mbm root = root)
  /\ (Forall (fun mb => Client.GetQueryCmd mb = None) mbm ->
      Client.AddQueryCommands AddCommand mbm root = root).
Proof.
  assert (Hgen : forall (get : Client.t (Command := Command) -> option Command) l r,
             foldl (fun root mb => match get mb with
                                   | Some cmd => AddCommand root cmd
                                   | None => root
                                   end) r l
             = foldl AddCommand r (omap get l)).
  { intros get l. induction l as [|mb l IH]; intros r; [done|].
    cbn. rewrite IH. by destruct (get mb). }
  assert (Hnone : forall (get : Client.t (Command := Command) -> option Command) l,
             Forall (fun mb => get mb = None) l -> omap get l = []).
  { intros get l Hl. induction Hl as [|mb l Hmb _ IH]; [done|]. cbn. by rewrite Hmb. }
  unfold Client.AddTxCommands, Client.AddQueryCommands.
  split; [apply Hgen|]. split; [apply Hgen|].
  split; intros Hl; by rewrite Hgen, Hnone.
Qed.
End commands.

(** ** What the lifecycle calls return, from the hooks they run *)
Section hook_claims.
Context `{Env}.

(** C5. [BeginBlock] runs the [BeginBlock] hook of the module under each
    name of the begin-block ordering, one after the other in the order of
    the ordering, each on the chain state the one before it left, and the
    tags it returns are the tag sets that these hooks returned, put one
    after the other in that order: nothing is reordered and nothing is
    dropped, so equal keys coming from different modules all stay.
    [EndBlock] does the same with the [EndBlock] hooks over the end-block
    ordering. *)
Theorem tags_concatenated_in_order (mm : ModuleManager.t)
        (beginReq : RequestBeginBlock) (endReq : RequestEndBlock) (ctx : Ctx) :
  (forall ms,
      resolved mm (ModuleManager.OrderBeginBlockers mm) ms ->
      let out := run_hooks (fun m c => AppModule.BeginBlock m c beginReq) ms ctx in
      exec (ModuleManager.BeginBlock mm beginReq) ctx
      = (Ok {| abci.ResponseBeginBlock.Tags := concat out.1 |},
         {| store := out.2;
            calls := zip_with (fun m r => EvBeginBlock m beginReq r) ms out.1 |}))
  /\ (forall ms,
         resolved mm (ModuleManager.OrderEndBlockers mm) ms ->
         let out := run_hooks (fun m c => AppModule.EndBlock m c endReq) ms ctx in
         exists resp,
           exec (ModuleManager.EndBlock mm endReq) ctx
           = (Ok resp,
              {| store := out.2;
                 calls := zip_with (fun m r => EvEndBlock m endReq r) ms out.1 |})
           /\ abci.ResponseEndBlock.Tags resp = concat out.1.*2).
Proof.
  split.
  - intros ms Hres out. by apply BeginBlock_run.
  - intros ms Hres out. eexists. split; [by apply EndBlock_run|done].
Qed.

(** C1. The validator updates that [EndBlock] returns are, of the update
    lists that the [EndBlock] hooks of the modules of the end-block ordering
    returned, run in the order of the ordering, the last one that is
    non-empty, and the empty list when none is; [InitGenesis] does the same
    with the [InitGenesis] hooks of the modules under the names of the init
    order that have a non-nil genesis entry.  A module put at the end of the
    ordering replaces the result so far when its hook returns a non-empty
    list and leaves it as it was when its hook returns an empty one. *)
Theorem validator_updates_last_non_empty (mm : ModuleManager.t)
        (genesisData : gmap string RawMessage) (req : RequestEndBlock) (ctx : Ctx) :
  (forall ms,
      let names := with_genesis genesisData (ModuleManager.OrderInitGenesis mm) in
      resolved mm names ms ->
      let out := run_hooks (fun (nm : string * AppModule.t) c =>
                              AppModule.InitGenesis nm.2 c (index genesisData nm.1))
                           (zip names ms) ctx in
      exec (ModuleManager.InitGenesis mm genesisData) ctx
      = (Ok {| abci.ResponseInitChain.Validators := last_non_empty out.1 |},
         {| store := out.2;
            calls := zip_with (fun (nm : string * AppModule.t) r =>
                                 EvInitGenesis nm.2 (index genesisData nm.1) r)
                              (zip names ms) out.1 |}))
  /\ (forall ms,
         resolved mm (ModuleManager.OrderEndBlockers mm) ms ->
         let out := run_hooks (fun m c => AppModule.EndBlock m c req) ms ctx in
         exists resp,
           exec (ModuleManager.EndBlock mm req) ctx
           = (Ok resp,
              {| store := out.2;
                 calls := zip_with (fun m r => EvEndBlock m req r) ms out.1 |})
           /\ abci.ResponseEndBlock.ValidatorUpdates resp = last_non_empty out.1.*1)
  /\ (forall names n ms m,
         ModuleManager.OrderEndBlockers mm = names ++ [n] ->
         resolved mm names ms ->
         ModuleManager.Modules mm !! n = Some m ->
         let before := exec (ModuleManager.EndBlock
                               (ModuleManager.SetOrderEndBlockers mm names) req) ctx in
         let returned := (AppModule.EndBlock m (store before.2) req).1.1 in
         exists resp0 resp,
           before.1 = Ok resp0
           /\ (exec (ModuleManager.EndBlock mm req) ctx).1 = Ok resp
           /\ abci.ResponseEndBlock.ValidatorUpdates resp
              = if decide (0 < length returned) then returned
                else abci.ResponseEndBlock.ValidatorUpdates resp0)
  /\ (forall names n ms m bz,
         ModuleManager.OrderInitGenesis mm = names ++ [n] ->
         resolved mm (with_genesis genesisData names) ms ->
         ModuleManager.Modules mm !! n = Some m ->
         index genesisData n = Some bz ->
         let before := exec (ModuleManager.InitGenesis
                               (ModuleManager.SetOrderInitGenesis mm names)
                               genesisData) ctx in
         let returned := (AppModule.InitGenesis m (store before.2) (Some bz)).1 in
         exists resp0 resp,
           before.1 = Ok resp0
           /\ (exec (ModuleManager.InitGenesis mm genesisData) ctx).1 = Ok resp
           /\ abci.ResponseInitChain.Validators resp
              = if decide (0 < length returned) then returned
                else abci.ResponseInitChain.Validators resp0).
Proof.
  split; [|split; [|split]].
  - intros ms names Hres out. by apply InitGenesis_run.
  - intros ms Hres out. eexists. split; [by apply EndBlock_run|done].
  - intros names n ms m Horder Hres Hn before returned.
    assert (Hbefore : before
                      = exec (ModuleManager.EndBlock
                                (ModuleManager.SetOrderEndBlockers mm names) req) ctx) by done.
    rewrite (EndBlock_run (ModuleManager.SetOrderEndBlockers mm names) req ctx ms Hres)
      in Hbefore.
    assert (Hall : resolved mm (ModuleManager.OrderEndBlockers mm) (ms ++ [m])).
    { rewrite Horder. apply resolved_app; [done|]. by repeat constructor. }
    eexists _, _. split; [by rewrite Hbefore|].
    rewrite (EndBlock_run mm req ctx (ms ++ [m]) Hall). split; [done|].
    cbn [fst abci.ResponseEndBlock.ValidatorUpdates].
    rewrite run_hooks_app. cbn [fst snd run_hooks].
    rewrite fmap_app. cbn [fmap list_fmap]. rewrite last_non_empty_snoc.
    unfold returned. by rewrite Hbefore.
  - intros names n ms m bz Horder Hres Hn Hentry before returned.
    assert (Hbefore : before
                      = exec (ModuleManager.InitGenesis
                                (ModuleManager.SetOrderInitGenesis mm names)
                                genesisData) ctx) by done.
    rewrite (InitGenesis_run (ModuleManager.SetOrderInitGenesis mm names)
               genesisData ctx ms Hres) in Hbefore.
    cbn [ModuleManager.OrderInitGenesis ModuleManager.SetOrderInitGenesis] in Hbefore.
    assert (Hnames : with_genesis genesisData (ModuleManager.OrderInitGenesis mm)
                     = with_genesis genesisData names ++ [n]).
    { rewrite Horder, with_genesis_app, with_genesis_cons_entry by by eexists. done. }
    assert (Hall : resolved mm (with_genesis genesisData (ModuleManager.OrderInitGenesis mm))
                            (ms ++ [m])).
    { rewrite Hnames. apply resolved_app; [done|]. by repeat constructor. }
    eexists _, _. split; [by rewrite Hbefore|].
    rewrite (InitGenesis_run mm genesisData ctx (ms ++ [m]) Hall). split; [done|].
    cbn [fst abci.ResponseInitChain.Validators].
    rewrite Hnames, zip_with_app by by apply resolved_length in Hres.
    rewrite run_hooks_app. cbn [fst snd run_hooks zip_with].
    rewrite last_non_empty_snoc. cbn [fst snd].
    unfold returned. rewrite Hbefore, Hentry. done.
Qed.

(** C2. [InitGenesis] goes through the init order.  A name whose entry in
    the genesis map is nil or absent is passed over: the call runs as it
    does with the name taken out of the init order, whether or not a module
    goes by it.  For the names that have a non-nil entry it runs the
    [InitGenesis] hook of the module under each, in the order of the init
    order, with exactly the entry of that name and on the chain state the
    hook before it left; when one of these names has no module the call
    stops there in a panic, the hooks of the names before it having run.
    No other call is made. *)
Theorem InitGenesis_skips_nil_entries (mm : ModuleManager.t)
        (genesisData : gmap string RawMessage) (ctx : Ctx) :
  let names := with_genesis genesisData (ModuleManager.OrderInitGenesis mm) in
  let hook_of := fun (nm : string * AppModule.t) c =>
                   AppModule.InitGenesis nm.2 c (index genesisData nm.1) in
  let call_of := fun (nm : string * AppModule.t) r =>
                   EvInitGenesis nm.2 (index genesisData nm.1) r in
  (forall pre n post,
      ModuleManager.OrderInitGenesis mm = pre ++ n :: post ->
      index genesisData n = None ->
      exec (ModuleManager.InitGenesis mm genesisData) ctx
      = exec (ModuleManager.InitGenesis
                (ModuleManager.SetOrderInitGenesis mm (pre ++ post)) genesisData) ctx)
  /\ (forall ms,
         resolved mm names ms ->
         let out := run_hooks hook_of (zip names ms) ctx in
         exec (ModuleManager.InitGenesis mm genesisData) ctx
         = (Ok {| abci.ResponseInitChain.Validators := last_non_empty out.1 |},
            {| store := out.2; calls := zip_with call_of (zip names ms) out.1 |}))
  /\ (forall pre n post ms,
         names = pre ++ n :: post ->
         resolved mm pre ms ->
         ModuleManager.Modules mm !! n = None ->
         let out := run_hooks hook_of (zip pre ms) ctx in
         exec (ModuleManager.InitGenesis mm genesisData) ctx
         = (Panic NilPointerDereference,
            {| store := out.2; calls := zip_with call_of (zip pre ms) out.1 |}))
  /\ Forall (fun e => exists n m,
                 n ∈ ModuleManager.OrderInitGenesis mm
                 /\ is_Some (index genesisData n)
                 /\ ModuleManager.Modules mm !! n = Some m
                 /\ exists r, e = EvInitGenesis m (index genesisData n) r)
            (calls (exec (ModuleManager.InitGenesis mm genesisData) ctx).2).
Proof.
  intros names hook_of call_of. split; [|split; [|split]].
  - intros pre n post Horder Hnil.
    by apply (InitGenesis_skips mm genesisData ctx pre post n).
  - intros ms Hres out. by apply InitGenesis_run.
  - intros pre n post ms Hnames Hres Hn out.
    by apply (InitGenesis_panics_run mm genesisData ctx pre post n ms).
  - eapply Forall_impl; [apply InitGenesis_calls_listed|].
    intros e (n & m & Hn & Hm & He). exists n, m.
    apply list_elem_of_filter in Hn as [Hentry Hn]. by repeat split.
Qed.
End hook_claims.

(** ** Two modules under one name: what runs *)
Section duplicate_claims.
Context `{Env}.

Local Abbreviation latest modules :=
  (fun m : AppModule.t => default m (last_named (AppModule.Name m) modules)).

Lemma resolved_latest (modules : list AppModule.t) :
  resolved (ModuleManager.NewModuleManager modules)
           (AppModule.Name <$> modules) (latest modules <$> modules).
Proof.
  unfold resolved. apply Forall2_fmap, Forall_Forall2_diag, Forall_forall.
  intros m Hm. rewrite NewModuleManager_lookup. unfold last_named.
  destruct (last_filter_is_Some AppModule.Name modules (AppModule.Name m)) as [_ Hsome].
  destruct Hsome as [m' Hm']; [by apply list_elem_of_fmap_2|].
  by rewrite Hm'.
Qed.

Lemma latest_is_not_shadowed (modules : list AppModule.t) (m m1 m2 : AppModule.t) :
  last_named (AppModule.Name m1) modules = Some m2 ->
  m1 <> m2 ->
  m ∈ modules ->
  latest modules m <> m1.
Proof.
  intros Hm1 Hne Hm Heq. unfold last_named in *.
  destruct (last_filter_is_Some AppModule.Name modules (AppModule.Name m)) as [_ Hsome].
  destruct Hsome as [m' Hm']; [by apply list_elem_of_fmap_2|].
  rewrite Hm' in Heq. cbn in Heq. subst m'.
  pose proof Hm' as Hin. rewrite last_lookup in Hin.
  apply list_elem_of_lookup_2, list_elem_of_filter in Hin as [Hname _].
  rewrite <- Hname in Hm'. congruence.
Qed.

(** C10. When the module list holds two modules of the same name, the
    constructed manager maps the name to the later one, while each of the
    four default orderings lists the name once for every module that goes
    by it.  So every lifecycle call ([BeginBlock], [EndBlock],
    [ExportGenesis], and [InitGenesis] for the names with a non-nil genesis
    entry) runs one hook per position of the list, on the module that the
    map holds under the name registered at that position: the hook of the
    later module runs at its own position and again at the position of the
    earlier one, each time on the chain state the hook before it left, and
    no hook of the earlier module runs. *)
Theorem duplicate_name_runs_later_module (l1 l2 l3 : list AppModule.t)
        (m1 m2 : AppModule.t) :
  AppModule.Name m1 = AppModule.Name m2 ->
  Forall (fun m => AppModule.Name m ≠ AppModule.Name m2) l3 ->
  let modules := l1 ++ m1 :: l2 ++ m2 :: l3 in
  let mm := ModuleManager.NewModuleManager modules in
  let n := AppModule.Name m2 in
  let names := (AppModule.Name <$> l1) ++ n :: (AppModule.Name <$> l2)
                 ++ n :: (AppModule.Name <$> l3) in
  let ran := (latest modules <$> l1) ++ m2 :: (latest modules <$> l2)
               ++ m2 :: (latest modules <$> l3) in
  ModuleManager.Modules mm !! AppModule.Name m1 = Some m2
  /\ ModuleManager.Modules mm !! AppModule.Name m2 = Some m2
  /\ (ModuleManager.OrderInitGenesis mm = names
      /\ ModuleManager.OrderExportGenesis mm = names
      /\ ModuleManager.OrderBeginBlockers mm = names
      /\ ModuleManager.OrderEndBlockers mm = names)
  /\ resolved mm names ran
  /\ (m1 <> m2 -> m1 ∉ ran)
  /\ (forall req ctx,
         let out := run_hooks (fun m c => AppModule.BeginBlock m c req) ran ctx in
         exec (ModuleManager.BeginBlock mm req) ctx
         = (Ok {| abci.ResponseBeginBlock.Tags := concat out.1 |},
            {| store := out.2;
               calls := zip_with (fun m r => EvBeginBlock m req r) ran out.1 |}))
  /\ (forall req ctx,
         let out := run_hooks (fun m c => AppModule.EndBlock m c req) ran ctx in
         exec (ModuleManager.EndBlock mm req) ctx
         = (Ok {| abci.ResponseEndBlock.ValidatorUpdates := last_non_empty out.1.*1;
                  abci.ResponseEndBlock.Tags := concat out.1.*2 |},
            {| store := out.2;
               calls := zip_with (fun m r => EvEndBlock m req r) ran out.1 |}))
  /\ (forall ctx,
         let out := run_hooks AppModule.ExportGenesis ran ctx in
         exists genesisData,
           exec (ModuleManager.ExportGenesis mm) ctx
           = (Ok genesisData,
              {| store := out.2;
                 calls := zip_with (fun m r => EvExportGenesis m r) ran out.1 |})
           /\ (forall k, genesisData !! k
                         = snd <$> last (filter (fun p => p.1 = k) (zip names out.1))))
  /\ (forall genesisData ctx,
         let entries := filter (fun nm : string * AppModule.t =>
                                  is_Some (index genesisData nm.1)) (zip names ran) in
         let out := run_hooks (fun (nm : string * AppModule.t) c =>
                                 AppModule.InitGenesis nm.2 c (index genesisData nm.1))
                              entries ctx in
         exec (ModuleManager.InitGenesis mm genesisData) ctx
         = (Ok {| abci.ResponseInitChain.Validators := last_non_empty out.1 |},
            {| store := out.2;
               calls := zip_with (fun (nm : string * AppModule.t) r =>
                                    EvInitGenesis nm.2 (index genesisData nm.1) r)
                                 entries out.1 |})).
Proof.
  intros Hsame Hl3 modules mm n names ran.
  assert (Hlast : last_named n modules = Some m2).
  { unfold last_named, modules.
    rewrite filter_app, filter_cons, decide_True by done.
    rewrite filter_app, filter_cons, decide_True by done.
    rewrite (filter_none _ l3) by done.
    by rewrite last_app_cons, app_comm_cons, last_app_cons. }
  assert (Hm2 : ModuleManager.Modules mm !! n = Some m2)
    by (unfold mm; by rewrite NewModuleManager_lookup).
  assert (Hnames : AppModule.Name <$> modules = names).
  { unfold modules, names, n. rewrite !fmap_app, !fmap_cons, !fmap_app, !fmap_cons.
    by rewrite Hsame. }
  assert (Hran : latest modules <$> modules = ran).
  { unfold modules at 2, ran. rewrite !fmap_app, !fmap_cons, !fmap_app, !fmap_cons.
    cbn beta. rewrite Hsame. fold n. by rewrite Hlast. }
  assert (Horders : ModuleManager.OrderInitGenesis mm = AppModule.Name <$> modules
                    /\ ModuleManager.OrderExportGenesis mm = AppModule.Name <$> modules
                    /\ ModuleManager.OrderBeginBlockers mm = AppModule.Name <$> modules
                    /\ ModuleManager.OrderEndBlockers mm = AppModule.Name <$> modules)
    by (unfold mm; by rewrite NewModuleManager_unfold).
  destruct Horders as (Hi & He & Hb & Hen).
  pose proof (resolved_latest modules) as Hres. fold mm in Hres.
  rewrite Hnames, Hran in Hres. rewrite Hnames in Hi, He, Hb, Hen.
  split; [by rewrite Hsame|]. split; [done|]. split; [done|]. split; [done|].
  split; [|split; [|split; [|split]]].
  - intros Hne Hin. rewrite <- Hran in Hin.
    apply list_elem_of_fmap in Hin as (m & Hm1 & Hm).
    eapply latest_is_not_shadowed; [|exact Hne|exact Hm|by symmetry].
    by rewrite Hsame.
  - intros req ctx out. apply BeginBlock_run. by rewrite Hb.
  - intros req ctx out. apply EndBlock_run. by rewrite Hen.
  - intros ctx out.
    destruct (ExportGenesis_run mm ctx ran) as (g & Hrun & Hlookup & _); [by rewrite He|].
    exists g. split; [done|]. intros k. by rewrite Hlookup, He.
  - intros genesisData ctx entries out.
    destruct (resolved_with_genesis mm genesisData names ran Hres) as [Hwith Hentries].
    fold entries in Hwith, Hentries.
    rewrite (InitGenesis_run mm genesisData ctx entries.*2)
      by (by rewrite Hi, Hwith).
    by rewrite Hi, Hwith, zip_fst_snd.
Qed.
End duplicate_claims.

(** ** The further properties at work on the small application *)
Section more_instances.
Local Existing Instance demo_env.

Ltac decide_it := refine (bool_decide_unpack _ _); vm_compute; exact I.
Ltac resolve_it := unfold resolved; repeat (constructor; [reflexivity|]); constructor.

Lemma DefaultGenesis_entries_witness :
  ModuleBasicManager.DefaultGenesis demo_registry !! "zz" = None.
Proof.
  apply (proj2 (proj2 (DefaultGenesis_entries demo_registry)) "zz"). decide_it.
Defined.

Lemma ValidateGenesis_of_DefaultGenesis_witness :
  exec (ModuleBasicManager.ValidateGenesis
          demo_registry (ModuleBasicManager.DefaultGenesis demo_registry)) []
  = (Ok None,
     {| store := [];
        calls := (fun mb => EvValidateGenesis mb (AppModuleBasic.DefaultGenesis mb) None)
                   <$> demo_registry |}).
Proof.
  apply (ValidateGenesis_of_DefaultGenesis demo_registry []).
  - decide_it.
  - repeat constructor.
Defined.

Lemma ValidateGenesis_of_DefaultGenesis_shadowed_witness :
  exists later,
    last_basic_named "a" [basicD "a" (Some []); basicD "a" None] = Some later
    /\ (Forall (fun b => AppModuleBasic.Name b ≠ "a") [basicD "a" None] ->
        later = basicD "a" (Some []))
    /\ validate_call
         (ModuleBasicManager.DefaultGenesis [basicD "a" (Some []); basicD "a" None])
         (basicD "a" (Some []))
       = EvValidateGenesis (basicD "a" (Some [])) (AppModuleBasic.DefaultGenesis later)
           (AppModuleBasic.ValidateGenesis (basicD "a" (Some []))
                                           (AppModuleBasic.DefaultGenesis later))
    /\ validate_call
         (ModuleBasicManager.DefaultGenesis [basicD "a" (Some []); basicD "a" None])
         (basicD "a" (Some []))
       ∈ calls (exec (ModuleBasicManager.ValidateGenesis
                        [basicD "a" (Some []); basicD "a" None]
                        (ModuleBasicManager.DefaultGenesis
                           [basicD "a" (Some []); basicD "a" None])) []).2.
Proof.
  apply (ValidateGenesis_of_DefaultGenesis_shadowed
           [] [basicD "a" None] (basicD "a" (Some [])) []).
  constructor.
Defined.

Lemma BeginBlock_threads_the_state_witness :
  exec (ModuleManager.BeginBlock demo_manager 1) []
  = (Ok {| abci.ResponseBeginBlock.Tags :=
             concat (run_hooks (fun m c => AppModule.BeginBlock m c 1)
                               [modA; modB; modC] []).1 |},
     {| store := (run_hooks (fun m c => AppModule.BeginBlock m c 1)
                            [modA; modB; modC] []).2;
        calls := zip_with (fun m r => EvBeginBlock m 1 r) [modA; modB; modC]
                          (run_hooks (fun m c => AppModule.BeginBlock m c 1)
                                     [modA; modB; modC] []).1 |}).
Proof.
  apply (BeginBlock_threads_the_state demo_manager 1 [] [modA; modB; modC]). resolve_it.
Defined.

Lemma EndBlock_threads_the_state_witness :
  exec (ModuleManager.EndBlock demo_manager 1) []
  = (Ok {| abci.ResponseEndBlock.ValidatorUpdates :=
             last_non_empty (run_hooks (fun m c => AppModule.EndBlock m c 1)
                                       [modA; modB; modC] []).1.*1;
           abci.ResponseEndBlock.Tags :=
             concat (run_hooks (fun m c => AppModule.EndBlock m c 1)
                               [modA; modB; modC] []).1.*2 |},
     {| store := (run_hooks (fun m c => AppModule.EndBlock m c 1)
                            [modA; modB; modC] []).2;
        calls := zip_with (fun m r => EvEndBlock m 1 r) [modA; modB; modC]
                          (run_hooks (fun m c => AppModule.EndBlock m c 1)
                                     [modA; modB; modC] []).1 |}).
Proof.
  apply (EndBlock_threads_the_state demo_manager 1 [] [modA; modB; modC]). resolve_it.
Defined.

Lemma InitGenesis_threads_the_state_witness :
  (exec (ModuleManager.InitGenesis demo_manager demo_genesis) []).1
  = Ok {| abci.ResponseInitChain.Validators := [3; 4] |}
  /\ store (exec (ModuleManager.InitGenesis demo_manager demo_genesis) []).2 = ["a"; "c"].
Proof.
  rewrite (InitGenesis_threads_the_state demo_manager demo_genesis [] [modA; modC]).
  - split; reflexivity.
  - resolve_it.
Defined.

Lemma ExportGenesis_threads_the_state_witness :
  exists genesisData,
    exec (ModuleManager.ExportGenesis demo_manager) []
    = (Ok genesisData,
       {| store := (run_hooks AppModule.ExportGenesis [modA; modB; modC] []).2;
          calls := zip_with (fun m r => EvExportGenesis m r) [modA; modB; modC]
                            (run_hooks AppModule.ExportGenesis [modA; modB; modC] []).1 |})
    /\ (forall n,
           genesisData !! n
           = snd <$> last (filter (fun p => p.1 = n)
                                  (zip (ModuleManager.OrderExportGenesis demo_manager)
                                       (run_hooks AppModule.ExportGenesis
                                                  [modA; modB; modC] []).1)))
    /\ dom genesisData = list_to_set (ModuleManager.OrderExportGenesis demo_manager).
Proof.
  apply (ExportGenesis_threads_the_state demo_manager [] [modA; modB; modC]). resolve_it.
Defined.

Lemma panic_keeps_the_state_so_far_witness :
  exec (ModuleManager.BeginBlock demo_manager_zz 1) []
  = (Panic NilPointerDereference,
     {| store := ["b"]; calls := [EvBeginBlock modB 1 [tagB]] |})
  /\ exec (ModuleManager.EndBlock demo_manager_zz 1) []
     = (Panic NilPointerDereference,
        {| store := ["b"]; calls := [EvEndBlock modB 1 ([], [tagB])] |})
  /\ exec (ModuleManager.ExportGenesis demo_manager_zz) []
     = (Panic NilPointerDereference,
        {| store := ["b"]; calls := [EvExportGenesis modB (Some [])] |}).
Proof.
  destruct (panic_keeps_the_state_so_far demo_manager_zz "zz" eq_refl)
    as (Hbegin & Hend & Hexport).
  split; [|split].
  - apply (Hbegin 1 [] ["b"] ["a"] [modB] eq_refl). resolve_it.
  - apply (Hend 1 [] ["b"] ["a"] [modB] eq_refl). resolve_it.
  - apply (Hexport [] ["b"] ["a"] [modB] eq_refl). resolve_it.
Defined.

Lemma NewModuleManager_map_witness :
  AppModule.Name modA' = "a" /\ modA' ∈ [modA; modB; modA'; modC].
Proof.
  apply (proj1 (proj2 (NewModuleManager_map [modA; modB; modA'; modC])) "a" modA').
  reflexivity.
Defined.

Lemma InitGenesis_of_exported_witness :
  index (<["c" := Some []]> (<["b" := Some []]> (<["a" := Some []]> ∅))) "zz" = None.
Proof.
  assert (Hrun : exec (ModuleManager.ExportGenesis demo_manager) []
                 = (Ok (<["c" := Some []]> (<["b" := Some []]> (<["a" := Some []]> ∅))),
                    (exec (ModuleManager.ExportGenesis demo_manager) []).2))
    by (vm_compute; reflexivity).
  apply (proj1 (InitGenesis_of_exported demo_manager demo_manager_zz [] [] _ _ Hrun) "zz").
  decide_it.
Defined.

Lemma InitGenesis_without_entries_witness :
  exec (ModuleManager.InitGenesis demo_manager_zz (<["q" := Some []]> ∅)) []
  = (Ok {| abci.ResponseInitChain.Validators := [] |}, {| store := []; calls := [] |}).
Proof.
  apply (proj1 (InitGenesis_without_entries demo_manager_zz (<["q" := Some []]> ∅) [])).
  repeat constructor.
Defined.

Lemma RegisterRoutes_of_constructed_witness :
  router_routes
    (calls (exec (ModuleManager.RegisterRoutes
                    (map_to_list (ModuleManager.Modules demo_manager))) []).2)
  ≡ₚ [("a", "aHandler"); ("c", "cHandler")]
  /\ query_routes
       (calls (exec (ModuleManager.RegisterRoutes
                       (map_to_list (ModuleManager.Modules demo_manager))) []).2)
     ≡ₚ [("b", "bQuerier"); ("c", "cQuerier")].
Proof.
  apply (RegisterRoutes_of_constructed [modA; modB; modC]
           (map_to_list (ModuleManager.Modules demo_manager)) []).
  - decide_it.
  - unfold ModuleManager.map_range. reflexivity.
Defined.

Lemma AddCommands_skip_nil_witness :
  Client.AddTxCommands demo_add (take 1 demo_clients) ["root"] = ["root"]
  /\ Client.AddTxCommands demo_add demo_clients ["root"] = ["root"; "a tx"; "b tx"]
  /\ Client.AddQueryCommands demo_add demo_clients ["root"]
     = ["root"; "c query"; "b query"].
Proof.
  split; [|split].
  - apply (proj1 (proj2 (proj2 (AddCommands_skip_nil demo_add (take 1 demo_clients)
                                                     ["root"])))).
    repeat constructor.
  - rewrite (proj1 (AddCommands_skip_nil demo_add demo_clients ["root"])). reflexivity.
  - rewrite (proj1 (proj2 (AddCommands_skip_nil demo_add demo_clients ["root"]))).
    reflexivity.
Defined.
End more_instances.

(** ** The restated claims at work on the small application *)
Section claim_instances.
Local Existing Instance demo_env.

Ltac decide_it := refine (bool_decide_unpack _ _); vm_compute; exact I.
Ltac resolve_it := unfold resolved; repeat (constructor; [reflexivity|]); constructor.

Lemma tags_concatenated_in_order_witness :
  exec (ModuleManager.BeginBlock demo_manager 1) []
  = (Ok {| abci.ResponseBeginBlock.Tags := [tagA; tagB; tagA] |},
     {| store := ["a"; "b"; "c"];
        calls := [EvBeginBlock modA 1 [tagA]; EvBeginBlock modB 1 [tagB];
                  EvBeginBlock modC 1 [tagA]] |})
  /\ (exists resp,
         exec (ModuleManager.EndBlock demo_manager 1) []
         = (Ok resp,
            {| store := ["a"; "b"; "c"];
               calls := [EvEndBlock modA 1 ([7], [tagA]); EvEndBlock modB 1 ([], [tagB]);
                         EvEndBlock modC 1 ([3; 4], [tagA])] |})
         /\ abci.ResponseEndBlock.Tags resp = [tagA; tagB; tagA]).
Proof.
  destruct (tags_concatenated_in_order demo_manager 1 1 []) as [Hbegin Hend].
  split.
  - apply (Hbegin [modA; modB; modC]). resolve_it.
  - apply (Hend [modA; modB; modC]). resolve_it.
Defined.

Lemma validator_updates_last_non_empty_witness :
  exec (ModuleManager.InitGenesis demo_manager demo_genesis) []
  = (Ok {| abci.ResponseInitChain.Validators := [3; 4] |},
     {| store := ["a"; "c"];
        calls := [EvInitGenesis modA (Some []) [7]; EvInitGenesis modC (Some []) [3; 4]] |})
  /\ (exists resp,
         exec (ModuleManager.EndBlock demo_manager 1) []
         = (Ok resp,
            {| store := ["a"; "b"; "c"];
               calls := [EvEndBlock modA 1 ([7], [tagA]); EvEndBlock modB 1 ([], [tagB]);
                         EvEndBlock modC 1 ([3; 4], [tagA])] |})
         /\ abci.ResponseEndBlock.ValidatorUpdates resp = [3; 4])
  /\ (exists resp0 resp,
         (exec (ModuleManager.EndBlock
                  (ModuleManager.SetOrderEndBlockers demo_manager ["a"; "b"]) 1) []).1
         = Ok resp0
         /\ (exec (ModuleManager.EndBlock demo_manager 1) []).1 = Ok resp
         /\ abci.ResponseEndBlock.ValidatorUpdates resp
            = if decide (0 < length [3; 4]) then [3; 4]
              else abci.ResponseEndBlock.ValidatorUpdates resp0)
  /\ (exists resp0 resp,
         (exec (ModuleManager.EndBlock
                  (ModuleManager.SetOrderEndBlockers demo_manager ["a"]) 1) []).1
         = Ok resp0
         /\ (exec (ModuleManager.EndBlock
                     (ModuleManager.SetOrderEndBlockers demo_manager ["a"; "b"]) 1) []).1
            = Ok resp
         /\ abci.ResponseEndBlock.ValidatorUpdates resp
            = if decide (0 < length (@nil nat)) then []
              else abci.ResponseEndBlock.ValidatorUpdates resp0)
  /\ (exists resp0 resp,
         (exec (ModuleManager.InitGenesis
                  (ModuleManager.SetOrderInitGenesis demo_manager ["a"; "b"])
                  demo_genesis) []).1
         = Ok resp0
         /\ (exec (ModuleManager.InitGenesis demo_manager demo_genesis) []).1 = Ok resp
         /\ abci.ResponseInitChain.Validators resp
            = if decide (0 < length [3; 4]) then [3; 4]
              else abci.ResponseInitChain.Validators resp0).
Proof.
  destruct (validator_updates_last_non_empty demo_manager demo_genesis 1 [])
    as (Hinit & Hend & Hend_later & Hinit_later).
  split; [|split; [|split; [|split]]].
  - apply (Hinit [modA; modC]). resolve_it.
  - apply (Hend [modA; modB; modC]). resolve_it.
  - apply (Hend_later ["a"; "b"] "c" [modA; modB] modC); [reflexivity|resolve_it|reflexivity].
  - destruct (validator_updates_last_non_empty
                (ModuleManager.SetOrderEndBlockers demo_manager ["a"; "b"]) demo_genesis 1 [])
      as (_ & _ & Hlater & _).
    apply (Hlater ["a"] "b" [modA] modB); [reflexivity|resolve_it|reflexivity].
  - apply (Hinit_later ["a"; "b"] "c" [modA] modC []);
      [reflexivity|resolve_it|reflexivity|reflexivity].
Defined.

Lemma InitGenesis_skips_nil_entries_witness :
  exec (ModuleManager.InitGenesis demo_manager demo_genesis) []
  = exec (ModuleManager.InitGenesis
            (ModuleManager.SetOrderInitGenesis demo_manager (["a"] ++ ["c"]))
            demo_genesis) []
  /\ exec (ModuleManager.InitGenesis demo_manager demo_genesis) []
     = (Ok {| abci.ResponseInitChain.Validators := [3; 4] |},
        {| store := ["a"; "c"];
           calls := [EvInitGenesis modA (Some []) [7];
                     EvInitGenesis modC (Some []) [3; 4]] |})
  /\ exec (ModuleManager.InitGenesis demo_manager_zz demo_genesis_zz) []
     = (Panic NilPointerDereference,
        {| store := ["b"]; calls := [EvInitGenesis modB (Some []) []] |}).
Proof.
  destruct (InitGenesis_skips_nil_entries demo_manager demo_genesis [])
    as (Hskip & Hrun & _ & _).
  destruct (InitGenesis_skips_nil_entries demo_manager_zz demo_genesis_zz [])
    as (_ & _ & Hpanic & _).
  split; [|split].
  - apply (Hskip ["a"] "b" ["c"]); reflexivity.
  - apply (Hrun [modA; modC]). resolve_it.
  - apply (Hpanic ["b"] "zz" ["a"] [modB]); [reflexivity|resolve_it|reflexivity].
Defined.

Lemma duplicate_name_runs_later_module_witness :
  ModuleManager.Modules (ModuleManager.NewModuleManager [modA; modB; modA'; modC]) !! "a"
  = Some modA'
  /\ (modA ∉ [modA'; modB; modA'; modC])
  /\ exec (ModuleManager.BeginBlock
             (ModuleManager.NewModuleManager [modA; modB; modA'; modC]) 1) []
     = (Ok {| abci.ResponseBeginBlock.Tags := [tagB; tagB; tagB; tagA] |},
        {| store := ["a"; "b"; "a"; "c"];
           calls := [EvBeginBlock modA' 1 [tagB]; EvBeginBlock modB 1 [tagB];
                     EvBeginBlock modA' 1 [tagB]; EvBeginBlock modC 1 [tagA]] |})
  /\ exec (ModuleManager.EndBlock
             (ModuleManager.NewModuleManager [modA; modB; modA'; modC]) 1) []
     = (Ok {| abci.ResponseEndBlock.ValidatorUpdates := [3; 4];
              abci.ResponseEndBlock.Tags := [tagB; tagB; tagB; tagA] |},
        {| store := ["a"; "b"; "a"; "c"];
           calls := [EvEndBlock modA' 1 ([9], [tagB]); EvEndBlock modB 1 ([], [tagB]);
                     EvEndBlock modA' 1 ([9], [tagB]); EvEndBlock modC 1 ([3; 4], [tagA])] |})
  /\ (exists genesisData,
         exec (ModuleManager.ExportGenesis
                 (ModuleManager.NewModuleManager [modA; modB; modA'; modC])) []
         = (Ok genesisData,
            {| store := ["a"; "b"; "a"; "c"];
               calls := [EvExportGenesis modA' (Some []); EvExportGenesis modB (Some []);
                         EvExportGenesis modA' (Some []); EvExportGenesis modC (Some [])] |}))
  /\ exec (ModuleManager.InitGenesis
             (ModuleManager.NewModuleManager [modA; modB; modA'; modC]) demo_genesis) []
     = (Ok {| abci.ResponseInitChain.Validators := [3; 4] |},
        {| store := ["a"; "a"; "c"];
           calls := [EvInitGenesis modA' (Some []) [9]; EvInitGenesis modA' (Some []) [9];
                     EvInitGenesis modC (Some []) [3; 4]] |}).
Proof.
  destruct (duplicate_name_runs_later_module [] [modB] [modC] modA modA' eq_refl)
    as (_ & Hlatest & _ & _ & Hnever & Hbegin & Hend & Hexport & Hinit).
  - repeat constructor. discriminate.
  - split; [exact Hlatest|]. split; [|split; [|split; [|split]]].
    + apply Hnever. intros Heq. discriminate (f_equal AppModule.Route Heq).
    + apply (Hbegin 1 []).
    + apply (Hend 1 []).
    + destruct (Hexport []) as (g & Hrun & _). exists g. exact Hrun.
    + apply (Hinit demo_genesis []).
Defined.

Lemma NewModuleManager_distinct_names_witness :
  exec (ModuleManager.BeginBlock (ModuleManager.NewModuleManager [modC; modA; modB]) 1) []
  = (Ok {| abci.ResponseBeginBlock.Tags := [tagA; tagA; tagB] |},
     {| store := ["c"; "a"; "b"];
        calls := [EvBeginBlock modC 1 [tagA]; EvBeginBlock modA 1 [tagA];
                  EvBeginBlock modB 1 [tagB]] |})
  /\ exec (ModuleManager.EndBlock (ModuleManager.NewModuleManager [modC; modA; modB]) 1) []
     = (Ok {| abci.ResponseEndBlock.ValidatorUpdates := [7];
              abci.ResponseEndBlock.Tags := [tagA; tagA; tagB] |},
        {| store := ["c"; "a"; "b"];
           calls := [EvEndBlock modC 1 ([3; 4], [tagA]); EvEndBlock modA 1 ([7], [tagA]);
                     EvEndBlock modB 1 ([], [tagB])] |}).
Proof.
  destruct (NewModuleManager_distinct_names [modC; modA; modB]) as (_ & Hbegin & Hend & _).
  - decide_it.
  - split; [apply (Hbegin 1 [])|apply (Hend 1 [])].
Defined.
End claim_instances.
